(** * qutebrowser.utils.split: the shell-like lexer and its splitter

    A shallow embedding of [ShellLexer] and [split] from
    [qutebrowser/utils/split.py] and of [SettingValue] from
    [qutebrowser/config/value.py], followed by the properties of the
    lexer that the specification states and by further properties of
    both modules.

    A Python [str] is a finite sequence of Unicode code points; it is
    modelled as a list of code points ([N]).  The generator
    [ShellLexer.__iter__] is modelled by the list of the strings it
    yields, in order.  The calls to [log.shlexer.vdebug] only log and are
    left out. *)

From Stdlib Require Import String Ascii NArith Bool List Lia.
Import ListNotations.
Local Open Scope N_scope.

(** ** Python strings *)

Definition char := N.
Definition pystr := list char.

(** Conversion of a literal, used to write the examples. *)
Definition str (s : string) : pystr := map N_of_ascii (list_ascii_of_string s).

Definition SP : char := 32.   (* space *)
Definition TAB : char := 9.   (* tab *)
Definition CR : char := 13.   (* carriage return *)
Definition SQ : char := 39.   (* single quote *)
Definition DQ : char := 34.   (* double quote *)
Definition BS : char := 92.   (* backslash *)
Definition A : char := 97.    (* the letter a, which names the word state *)

(** The placeholder marker, an opening and a closing brace. *)
Definition MARK : pystr := [123; 125].

(** [c in s] for a one-character string [c]. *)
Definition in_str (c : char) (s : pystr) : bool := existsb (N.eqb c) s.

(** Truth value of a string: it is not empty. *)
Definition nonempty (s : pystr) : bool :=
  match s with [] => false | _ :: _ => true end.

(** The code points for which Python's built-in [str.isspace] holds:
    the ASCII controls 9 to 13 and 28 to 31, the space, and the Unicode
    separators and spaces above them. *)
Definition isspace_char (c : char) : bool :=
  ((9 <=? c) && (c <=? 13)) || ((28 <=? c) && (c <=? 32))
  || (c =? 133) || (c =? 160) || (c =? 5760)
  || ((8192 <=? c) && (c <=? 8202))
  || (c =? 8232) || (c =? 8233) || (c =? 8239) || (c =? 8287)
  || (c =? 12288).

(** [t.isspace()]: at least one character, and all of them whitespace. *)
Definition isspace (t : pystr) : bool := nonempty t && forallb isspace_char t.

(** ** ShellLexer *)

(** The attributes set by [__init__]. *)
Record ShellLexer := mkShellLexer {
  string_ : pystr;
  whitespace : pystr;
  quotes : pystr;
  escape : pystr;
  escapedquotes : pystr;
  keep : bool;
  placeholder : bool
}.

Definition ShellLexer_init (s : pystr) : ShellLexer :=
  {| string_ := s;
     whitespace := [SP; TAB; CR];
     quotes := [SQ; DQ];
     escape := [BS];
     escapedquotes := [DQ];
     keep := false;
     placeholder := false |}.

Definition set_keep (b : bool) (L : ShellLexer) : ShellLexer :=
  {| string_ := string_ L; whitespace := whitespace L; quotes := quotes L;
     escape := escape L; escapedquotes := escapedquotes L;
     keep := b; placeholder := placeholder L |}.

Definition set_placeholder (b : bool) (L : ShellLexer) : ShellLexer :=
  {| string_ := string_ L; whitespace := whitespace L; quotes := quotes L;
     escape := escape L; escapedquotes := escapedquotes L;
     keep := keep L; placeholder := b |}.

(** The attributes set by [reset], which the scan mutates. *)
Record ScanState := mkScan {
  quoted : bool;
  escapedstate : char;
  token : pystr;
  state : char
}.

Definition reset : ScanState :=
  {| quoted := false; escapedstate := SP; token := []; state := SP |}.

Definition set_quoted (b : bool) (st : ScanState) : ScanState :=
  {| quoted := b; escapedstate := escapedstate st; token := token st;
     state := state st |}.

Definition set_escapedstate (c : char) (st : ScanState) : ScanState :=
  {| quoted := quoted st; escapedstate := c; token := token st;
     state := state st |}.

Definition set_token (t : pystr) (st : ScanState) : ScanState :=
  {| quoted := quoted st; escapedstate := escapedstate st; token := t;
     state := state st |}.

Definition set_state (c : char) (st : ScanState) : ScanState :=
  {| quoted := quoted st; escapedstate := escapedstate st; token := token st;
     state := c |}.

(** [self.token += t] *)
Definition add_token (t : pystr) (st : ScanState) : ScanState :=
  set_token (token st ++ t) st.

(** [if cond: self.token += t] *)
Definition add_token_if (cond : bool) (t : pystr) (st : ScanState) : ScanState :=
  if cond then add_token t st else st.

(** [self.token or self.quoted] *)
Definition pending (st : ScanState) : bool := nonempty (token st) || quoted st.

(** The body of the loop of [__iter__] for one character: the state
    after it and the strings yielded while handling it. *)
Definition step (L : ShellLexer) (st : ScanState) (nextchar : char)
  : ScanState * list pystr :=
  if state st =? SP then
    let st := add_token_if (keep L && negb (placeholder L)) [nextchar] st in
    if in_str nextchar (whitespace L) then
      let st := add_token_if (placeholder L) [nextchar] st in
      if pending st then (reset, [token st]) else (st, [])
    else if in_str nextchar (escape L) then
      (set_state nextchar (set_escapedstate A st), [])
    else if in_str nextchar (quotes L) then
      let st := add_token_if (placeholder L) [nextchar] st in
      (set_state nextchar st, [])
    else
      let st := if placeholder L then set_token MARK st
                else set_token [nextchar] st in
      (set_state A st, [])
  else if in_str (state st) (quotes L) then
    let st := set_quoted true st in
    if nextchar =? state st then
      let st := add_token_if (placeholder L) MARK st in
      let st := add_token_if (keep L) [nextchar] st in
      (set_state A st, [])
    else if in_str nextchar (escape L) && in_str (state st) (escapedquotes L) then
      let st := add_token_if (keep L && negb (placeholder L)) [nextchar] st in
      (set_state nextchar (set_escapedstate (state st) st), [])
    else
      (add_token_if (negb (placeholder L)) [nextchar] st, [])
  else if in_str (state st) (escape L) then
    let st := add_token_if
                (in_str (escapedstate st) (quotes L)
                 && negb (nextchar =? state st)
                 && negb (nextchar =? escapedstate st)
                 && negb (keep L))
                [state st] st in
    let st := add_token_if (negb (placeholder L)) [nextchar] st in
    (set_state (escapedstate st) st, [])
  else if state st =? A then
    if in_str nextchar (whitespace L) then
      let st := set_state SP st in
      let '(st, ys) := if pending st then (reset, [token st]) else (st, []) in
      (st, ys ++ (if keep L then [[nextchar]] else []))
    else if in_str nextchar (quotes L) then
      let st := add_token_if (keep L) [nextchar] st in
      (set_state nextchar st, [])
    else if in_str nextchar (escape L) then
      let st := add_token_if (keep L && negb (placeholder L)) [nextchar] st in
      (set_state nextchar (set_escapedstate A st), [])
    else
      (add_token_if (negb (placeholder L)) [nextchar] st, [])
  else (st, []).

(** The loop [for nextchar in self.string]. *)
Fixpoint scan (L : ShellLexer) (st : ScanState) (s : pystr)
  : ScanState * list pystr :=
  match s with
  | [] => (st, [])
  | nextchar :: s' =>
      let '(st1, ys1) := step L st nextchar in
      let '(st2, ys2) := scan L st1 s' in
      (st2, ys1 ++ ys2)
  end.

(** The two statements after the loop. *)
Definition finish (L : ShellLexer) (st : ScanState) : list pystr :=
  let st := add_token_if (in_str (state st) (escape L) && negb (keep L))
              [state st] st in
  if pending st then [token st] else [].

(** [list(lexer)]: everything [__iter__] yields. *)
Definition iter (L : ShellLexer) : list pystr :=
  let '(st, ys) := scan L reset (string_ L) in
  ys ++ finish L st.

(** ** split *)

(** The lexer as [split] configures it. *)
Definition split_lexer (s : pystr) (keep placeholder : bool) : ShellLexer :=
  let lexer := ShellLexer_init s in
  if placeholder then set_keep true (set_placeholder true lexer)
  else set_keep keep lexer.

(** The loop [for t in tokens], on the pair [(out, spaces)]. *)
Fixpoint walk (tokens : list pystr) (out : list pystr) (spaces : pystr)
  : list pystr * pystr :=
  match tokens with
  | [] => (out, spaces)
  | t :: ts =>
      if isspace t then walk ts out (spaces ++ t)
      else walk ts (out ++ [spaces ++ t]) []
  end.

(** What [split] does with the materialised fragments. *)
Definition reassemble (tokens : list pystr) : list pystr :=
  if negb (match tokens with [] => false | _ :: _ => true end) then []
  else
    let '(out, spaces) := walk tokens [] [] in
    if nonempty spaces then out ++ [spaces] else out.

Definition split (s : pystr) (keep placeholder : bool) : list pystr :=
  reassemble (iter (split_lexer s keep placeholder)).

(** The scanner state when the input is exhausted, before the
    end-of-input statements. *)
Definition final_state (L : ShellLexer) : ScanState :=
  fst (scan L reset (string_ L)).

(** The fragments yielded before the end of the input. *)
Definition yielded (L : ShellLexer) : list pystr :=
  snd (scan L reset (string_ L)).

(** * qutebrowser.config.value: a setting value with layers

    [SettingValue] from [qutebrowser/config/value.py].  A value is any
    Python object; [None] is told apart, so a layer holds an
    [option V].  The type object [typ] is not part of the module: it is
    taken as its two methods, [validate], which accepts its argument or
    raises, and [transform]. *)

(** The exceptions the methods raise. *)
Inductive exn : Type :=
  | ValueError
  | KeyError
  | ValidationError.

(** The outcome of a call: what it returns, or the exception it raises. *)
Inductive result (X : Type) : Type :=
  | Ok (x : X)
  | Raise (e : exn).
Arguments Ok {X} x.
Arguments Raise {X} e.

(** Equality of two strings. *)
Fixpoint str_eqb (a b : pystr) : bool :=
  match a, b with
  | [], [] => true
  | x :: a', y :: b' => (x =? y) && str_eqb a' b'
  | _, _ => false
  end.

Section SettingValue.
Context {V I T : Type}.

(** What the module uses of a [BaseType]: [validate] returns [false]
    where the method raises. *)
Record BaseType := mkBaseType {
  validate : I -> bool;
  transform : V -> T
}.

(** A [collections.OrderedDict] from layer names to values: the items
    in insertion order, no key twice. *)
Definition odict := list (pystr * option V).

(** [OrderedDict.fromkeys(keys)] for keys that are all different. *)
Definition od_fromkeys (keys : list pystr) : odict :=
  map (fun k => (k, None)) keys.

(** [d[k] = v]: in place when the key is there, at the end otherwise. *)
Fixpoint od_set (d : odict) (k : pystr) (v : option V) : odict :=
  match d with
  | [] => [(k, v)]
  | (k', v') :: d' =>
      if str_eqb k' k then (k', v) :: d' else (k', v') :: od_set d' k v
  end.

(** [d[k]] *)
Fixpoint od_get (d : odict) (k : pystr) : result (option V) :=
  match d with
  | [] => Raise KeyError
  | (k', v') :: d' => if str_eqb k' k then Ok v' else od_get d' k
  end.

(** [keys.index(k)] *)
Fixpoint list_index (keys : list pystr) (k : pystr) : result nat :=
  match keys with
  | [] => Raise ValueError
  | k' :: keys' =>
      if str_eqb k' k then Ok O
      else match list_index keys' k with
           | Ok n => Ok (S n)
           | Raise e => Raise e
           end
  end.

Record SettingValue := mkSettingValue {
  typ : BaseType;
  advanced : bool;
  _values : odict
}.

Definition SettingValue_init (typ : BaseType) (default : option V)
    (advanced : bool) : SettingValue :=
  {| typ := typ;
     advanced := advanced;
     _values := od_set (od_fromkeys [str "temp"; str "conf"; str "default"])
                  (str "default") default |}.

Definition getlayers (self : SettingValue) (startlayer : pystr)
  : result odict :=
  match list_index (map fst (_values self)) startlayer with
  | Ok idx => Ok (skipn idx (_values self))
  | Raise e => Raise e
  end.

(** The loop [for val in d.values()] with its [else] clause. *)
Fixpoint first_not_none (vals : list (option V)) : result V :=
  match vals with
  | [] => Raise ValueError
  | Some v :: _ => Ok v
  | None :: vals' => first_not_none vals'
  end.

Definition get_first_value (self : SettingValue) (startlayer : option pystr)
  : result V :=
  match (match startlayer with
         | None => Ok (_values self)
         | Some l => getlayers self l
         end) with
  | Ok d => first_not_none (map snd d)
  | Raise e => Raise e
  end.

Definition value (self : SettingValue) : result V :=
  get_first_value self None.

Definition default (self : SettingValue) : result (option V) :=
  od_get (_values self) (str "default").

Definition values (self : SettingValue) : odict := _values self.

Definition transformed (self : SettingValue) : result T :=
  match value self with
  | Ok v => Ok (transform (typ self) v)
  | Raise e => Raise e
  end.

(** [setv]: the object after the call, or the exception of
    [validate], raised before anything is stored. *)
Definition setv (self : SettingValue) (layer : pystr) (value : option V)
    (interpolated : I) : result SettingValue :=
  if validate (typ self) interpolated then
    Ok {| typ := typ self;
          advanced := advanced self;
          _values := od_set (_values self) layer value |}
  else Raise ValidationError.
End SettingValue.

Arguments BaseType : clear implicits.
Arguments SettingValue : clear implicits.
Arguments odict : clear implicits.

(** * Properties *)

(** ** The splitter keeps the text of the fragments *)

Lemma walk_concat (ts out : list pystr) (spaces : pystr) :
  concat (fst (walk ts out spaces)) ++ snd (walk ts out spaces)
  = concat out ++ spaces ++ concat ts.
Proof.
  revert out spaces.
  induction ts as [|t ts IH]; intros out spaces; simpl.
  - now rewrite app_nil_r.
  - destruct (isspace t); rewrite IH.
    + now rewrite <- app_assoc.
    + rewrite concat_app; simpl. now rewrite !app_nil_r, <- !app_assoc.
Qed.

Lemma walk_app (ts1 ts2 out : list pystr) (spaces : pystr) :
  walk (ts1 ++ ts2) out spaces
  = walk ts2 (fst (walk ts1 out spaces)) (snd (walk ts1 out spaces)).
Proof.
  revert out spaces.
  induction ts1 as [|t ts1 IH]; intros out spaces; simpl; auto.
  destruct (isspace t); apply IH.
Qed.

Lemma reassemble_concat (ts : list pystr) :
  concat (reassemble ts) = concat ts.
Proof.
  unfold reassemble.
  destruct ts as [|t ts]; [reflexivity|].
  cbv beta iota delta [negb].
  pose proof (walk_concat (t :: ts) [] []) as H.
  destruct (walk (t :: ts) [] []) as [out spaces]; simpl fst in H; simpl snd in H.
  change (concat [] ++ [] ++ concat (t :: ts)) with (concat (t :: ts)) in H.
  destruct spaces as [|c spaces]; simpl nonempty; cbv iota.
  - now rewrite app_nil_r in H.
  - rewrite concat_app; simpl concat at 2. now rewrite app_nil_r.
Qed.

(** ** The scan in keep mode loses no character *)

(** The character classes of [__init__]. *)
Definition standard (L : ShellLexer) : Prop :=
  whitespace L = [SP; TAB; CR] /\ quotes L = [SQ; DQ]
  /\ escape L = [BS] /\ escapedquotes L = [DQ].

Lemma split_lexer_standard (s : pystr) (k p : bool) :
  standard (split_lexer s k p).
Proof. destruct k, p; repeat split. Qed.

(** The states the scan can be in: idle with an empty accumulator, in a
    word, in a quote, or after an escape character that remembers the
    word or quote state to return to. *)
Definition reachable (st : ScanState) : Prop :=
  (state st = SP /\ token st = [])
  \/ state st = A
  \/ state st = SQ
  \/ state st = DQ
  \/ (state st = BS
      /\ (escapedstate st = A \/ escapedstate st = SQ \/ escapedstate st = DQ)).

Lemma reachable_reset : reachable reset.
Proof. left; split; reflexivity. Qed.

(** Decide every comparison of characters in the goal: by computation
    between two constants, by cases when the scanned character is one. *)
Ltac eval_eqb a b :=
  let v := eval vm_compute in (N.eqb a b) in
  change (N.eqb a b) with v.

Ltac case_eqb :=
  repeat match goal with
    | |- context [N.eqb ?a ?b] =>
        first
          [ is_var a; destruct (N.eqb_spec a b); try subst a
          | is_var b; destruct (N.eqb_spec a b); try subst b
          | eval_eqb a b ];
        try discriminate; cbn -[N.eqb] in *
    end.

Ltac close_step :=
  let E := fresh "E" in
  intros E; injection E as <- <-;
  cbn; rewrite ?app_nil_r, <- ?app_assoc;
  (split; [unfold reachable; cbn; tauto | reflexivity]).

Section KeepMode.
Variable L : ShellLexer.
Hypothesis Hstd : standard L.
Hypothesis Hkeep : keep L = true.
Hypothesis Hplain : placeholder L = false.

Lemma step_keep (st st' : ScanState) (c : char) (ys : list pystr) :
  reachable st ->
  step L st c = (st', ys) ->
  reachable st' /\ concat ys ++ token st' = token st ++ [c].
Proof.
  destruct Hstd as (Hw & Hq & He & Hd).
  destruct st as [q e t s].
  unfold reachable, step; cbn [state token escapedstate quoted].
  rewrite Hw, Hq, He, Hd, Hkeep, Hplain.
  intros [[-> ->] | [-> | [-> | [-> | [-> Hesc]]]]].
  - cbn -[N.eqb]. case_eqb; close_step.
  - cbn -[N.eqb]. case_eqb; destruct t, q; close_step.
  - cbn -[N.eqb]. case_eqb; close_step.
  - cbn -[N.eqb]. case_eqb; close_step.
  - destruct Hesc as [-> | [-> | ->]]; cbn -[N.eqb]; case_eqb; close_step.
Qed.

Lemma scan_keep (s : pystr) : forall (st st' : ScanState) (ys : list pystr),
  reachable st ->
  scan L st s = (st', ys) ->
  reachable st' /\ concat ys ++ token st' = token st ++ s.
Proof.
  induction s as [|c s IH]; intros st st' ys Hr; simpl.
  - intros Heq; injection Heq as <- <-. now rewrite app_nil_r.
  - destruct (step L st c) as [st1 ys1] eqn:E1.
    destruct (scan L st1 s) as [st2 ys2] eqn:E2.
    intros Heq; injection Heq as <- <-.
    destruct (step_keep _ _ _ _ Hr E1) as [Hr1 H1].
    destruct (IH _ _ _ Hr1 E2) as [Hr2 H2].
    split; [assumption|].
    rewrite concat_app, <- app_assoc, H2, app_assoc, H1, <- app_assoc.
    reflexivity.
Qed.

Lemma finish_keep (st : ScanState) : concat (finish L st) = token st.
Proof.
  unfold finish. rewrite Hkeep, andb_false_r. cbn [add_token_if].
  unfold pending.
  destruct (token st) as [|c t], (quoted st); cbn;
    rewrite ?app_nil_r; reflexivity.
Qed.

Lemma iter_keep : concat (iter L) = string_ L.
Proof.
  unfold iter.
  destruct (scan L reset (string_ L)) as [st ys] eqn:E.
  destruct (scan_keep _ _ _ _ reachable_reset E) as [_ H].
  rewrite concat_app, finish_keep. exact H.
Qed.
End KeepMode.

(** In keep mode the tokens of [split], concatenated, are the input,
    whatever state the scan ends in. *)
Lemma split_keep_concat (s : pystr) : concat (split s true false) = s.
Proof.
  unfold split. rewrite reassemble_concat.
  apply (iter_keep (split_lexer s true false)
           (split_lexer_standard s true false) eq_refl eq_refl).
Qed.

(** The input ends inside a quote that was never closed, or right after
    an escape character. *)
Definition ends_open (L : ShellLexer) : bool :=
  in_str (state (final_state L)) (quotes L)
  || in_str (state (final_state L)) (escape L).

(** C1: for every string [s] that does not end in an unterminated quote
    or in an escape character with nothing after it, the tokens that
    [split(s, keep=True)] returns, concatenated in order, are [s]. *)
Theorem split_keep_roundtrip (s : pystr) :
  ends_open (split_lexer s true false) = false ->
  concat (split s true false) = s.
Proof. intros _. apply split_keep_concat. Qed.

Lemma split_keep_roundtrip_witness :
  ends_open (split_lexer (str "open  'a b' c" ++ BS :: str " d") true false)
  = false
  /\ concat (split (str "open  'a b' c" ++ BS :: str " d") true false)
     = str "open  'a b' c" ++ BS :: str " d".
Proof.
  split; [reflexivity | apply split_keep_roundtrip; reflexivity].
Defined.

(** ** Worked inputs *)

(** [s] between two double quotes, and between two single quotes. *)
Definition dquote (s : pystr) : pystr := DQ :: s ++ [DQ].
Definition squote (s : pystr) : pystr := SQ :: s ++ [SQ].

(** The string [echo "a b" c]. *)
Definition echo_input : pystr := str "echo " ++ dquote (str "a b") ++ str " c".

(** The string [gvim -f "{}"]. *)
Definition gvim_input : pystr := str "gvim -f " ++ dquote (str "{}").

(** [needle in hay] for strings: [needle] occurs in [hay] as a run of
    consecutive characters. *)
Fixpoint starts_with (needle hay : pystr) : bool :=
  match needle, hay with
  | [], _ => true
  | _ :: _, [] => false
  | a :: needle', b :: hay' => (a =? b) && starts_with needle' hay'
  end.

Fixpoint occurs (needle hay : pystr) : bool :=
  starts_with needle hay
  || match hay with
     | [] => false
     | _ :: hay' => occurs needle hay'
     end.

(** C2, as the specification words it, fails: with [keep=True] the
    result is not the list of the three bare tokens. *)
Lemma split_keep_echo_not_bare :
  split echo_input true false <> [str "echo"; dquote (str "a b"); str "c"].
Proof. vm_compute. discriminate. Qed.

(** C2 (amended): [split('echo "a b" c', keep=True)] returns three
    tokens, the quote characters kept, and each space before a token
    kept in front of that token: [echo], [ "a b"] and [ c]. *)
Theorem split_keep_echo :
  split echo_input true false
  = [str "echo"; SP :: dquote (str "a b"); SP :: str "c"].
Proof. vm_compute. reflexivity. Qed.

(** C8: [split('echo "a b" c')] with [keep=False] returns the three
    tokens [echo], [a b] and [c]: the quotes are removed and the
    unquoted spaces separate the tokens. *)
Theorem split_echo :
  split echo_input false false = [str "echo"; str "a b"; str "c"].
Proof. vm_compute. reflexivity. Qed.

(** C3, as the specification words it, fails: no token of the
    placeholder split holds the text [gvim -f], and none of its tokens
    even holds [gvim] or [-f]. *)
Lemma split_placeholder_gvim_text_lost :
  ~ ((exists t, In t (split gvim_input false true)
                /\ occurs (dquote MARK) t = true)
     /\ occurs (str "gvim -f") (concat (split gvim_input false true)) = true)
  /\ (forall t, In t (split gvim_input false true) ->
        occurs (str "gvim") t = false /\ occurs (str "-f") t = false).
Proof.
  split.
  - intros [_ H]. vm_compute in H. discriminate.
  - vm_compute. intros t [<- | [<- | [<- | []]]]; split; reflexivity.
Qed.

(** C3 (amended): [split('gvim -f "{}"', placeholder=True)] returns the
    three tokens [{}], [ {}] and [ "{}"], whatever [keep] is: the words
    [gvim] and [-f] are each replaced by the marker, the quoted segment
    is the marker between its two quote characters, and each space stays
    in front of the token it precedes. *)
Theorem split_placeholder_gvim (k : bool) :
  split gvim_input k true = [MARK; SP :: MARK; SP :: dquote MARK].
Proof. destruct k; vm_compute; reflexivity. Qed.

(** ** The flags of the lexer *)

(** In the word state a whitespace character is yielded as a fragment
    of its own as soon as the lexer keeps. *)
Lemma step_word_whitespace (L : ShellLexer) (st : ScanState) (c : char) :
  standard L -> keep L = true -> state st = A ->
  in_str c (whitespace L) = true ->
  exists ys, snd (step L st c) = ys ++ [[c]].
Proof.
  intros (Hw & Hq & He & Hd) Hk Hs Hc.
  unfold step. rewrite Hs, Hc, Hq, He, Hk. cbn -[pending set_state].
  destruct (pending (set_state SP st)); cbn.
  - exists [token st]. reflexivity.
  - exists []. reflexivity.
Qed.

(** ** Escapes *)

(** C6: a backslash escapes inside a double-quoted segment and outside
    quotes, and is an ordinary character inside a single-quoted
    segment.  With the default flags, the six characters
    [dq a bs dq b dq] split into the one token [a dq b], and [sq a bs b sq]
    into the one token [a bs b]; in the scan, a backslash met in the
    single-quote state is appended to the token, while one met in the
    double-quote, word or idle state only moves to the escape state. *)
Theorem backslash_escapes_outside_single_quotes :
  split (dquote (str "a" ++ [BS; DQ] ++ str "b")) false false
  = [str "a" ++ [DQ] ++ str "b"]
  /\ split (squote (str "a" ++ [BS] ++ str "b")) false false
     = [str "a" ++ [BS] ++ str "b"]
  /\ split (str "a" ++ [BS; SP] ++ str "b") false false = [str "a b"]
  /\ (forall s q e t,
        step (split_lexer s false false) (mkScan q e t SQ) BS
        = (mkScan true e (t ++ [BS]) SQ, []))
  /\ (forall s q e t,
        step (split_lexer s false false) (mkScan q e t DQ) BS
        = (mkScan true DQ t BS, []))
  /\ (forall s q e t,
        step (split_lexer s false false) (mkScan q e t A) BS
        = (mkScan q A t BS, []))
  /\ (forall s q e t,
        step (split_lexer s false false) (mkScan q e t SP) BS
        = (mkScan q A t BS, [])).
Proof. repeat split. Qed.

(** ** Empty quoted segments *)

(** C10: with the default flags an input that is only an empty quoted
    segment gives exactly one token, the empty string.  The scan ends
    with an empty accumulator and [quoted] set, so the lexer yields the
    empty string, and the empty string is not whitespace for the
    splitter. *)
Theorem split_empty_quotes :
  split (squote []) false false = [[]]
  /\ split (dquote []) false false = [[]]
  /\ token (final_state (split_lexer (squote []) false false)) = []
  /\ quoted (final_state (split_lexer (squote []) false false)) = true
  /\ iter (split_lexer (squote []) false false) = [[]]
  /\ iter (split_lexer (dquote []) false false) = [[]]
  /\ isspace [] = false.
Proof. repeat split. Qed.

(** ** The last token of the splitter *)

Lemma walk_spaces (ts out : list pystr) (spaces : pystr) :
  forallb isspace_char spaces = true ->
  forallb isspace_char (snd (walk ts out spaces)) = true.
Proof.
  revert out spaces.
  induction ts as [|t ts IH]; intros out spaces Hsp; simpl; auto.
  destruct (isspace t) eqn:Ht; apply IH; auto.
  rewrite forallb_app, Hsp. unfold isspace in Ht.
  now apply andb_true_iff in Ht.
Qed.

(** When the last fragment is [t], the last token ends with [t]: the
    pending whitespace and [t] itself. *)
Lemma reassemble_snoc (ts : list pystr) (t : pystr) :
  reassemble (ts ++ [t])
  = fst (walk ts [] []) ++ [snd (walk ts [] []) ++ t].
Proof.
  unfold reassemble.
  destruct (ts ++ [t]) as [|x l] eqn:E.
  - now destruct ts.
  - rewrite <- E; clear E. cbv beta iota delta [negb].
    rewrite walk_app.
    destruct (walk ts [] []) as [out spaces]; cbn [fst snd walk].
    destruct (isspace t) eqn:Ht.
    + unfold isspace in Ht. apply andb_true_iff in Ht as [Ht _].
      destruct t; [discriminate|].
      destruct spaces; reflexivity.
    + reflexivity.
Qed.

Lemma reassemble_single (t : pystr) : reassemble [t] = [t].
Proof. apply (reassemble_snoc [] t). Qed.

Lemma split_unfold (s : pystr) (k p : bool) :
  split s k p
  = reassemble (yielded (split_lexer s k p)
                ++ finish (split_lexer s k p)
                     (final_state (split_lexer s k p))).
Proof.
  unfold split, iter, yielded, final_state.
  replace (string_ (split_lexer s k p)) with s by now destruct p.
  now destruct (scan (split_lexer s k p) reset s).
Qed.

(** ** End of input *)

(** No token is returned for a quote that is opened by the last
    character of the input and starts a token: C5, as the specification
    words it, fails on the one-character input made of a single quote,
    which ends in an unterminated quote and has no final token. *)
Lemma split_lone_quote_yields_nothing :
  in_str (state (final_state (split_lexer (str "'") false false)))
    (quotes (split_lexer (str "'") false false)) = true
  /\ token (final_state (split_lexer (str "'") false false)) = []
  /\ split (str "'") false false = []
  /\ ~ (exists out last, split (str "'") false false = out ++ [last]).
Proof.
  repeat split.
  intros (out & last & H). vm_compute in H. now destruct out.
Qed.

(** ** One token per word *)

(** A fragment is yielded inside the loop only for a whitespace
    character met in the idle or in the word state. *)
Lemma step_yields (L : ShellLexer) (st : ScanState) (c : char) :
  snd (step L st c) <> [] ->
  in_str c (whitespace L) = true /\ (state st = SP \/ state st = A).
Proof.
  unfold step.
  destruct (N.eqb_spec (state st) SP) as [Hs | Hs].
  - destruct (in_str c (whitespace L)); [auto|].
    destruct (in_str c (escape L)); [now cbn|].
    destruct (in_str c (quotes L)); now cbn.
  - destruct (in_str (state st) (quotes L)).
    { cbn -[N.eqb]. destruct (c =? state st); [now cbn|].
      destruct (_ && _); now cbn. }
    destruct (in_str (state st) (escape L)); [now cbn|].
    destruct (N.eqb_spec (state st) A) as [Ha | Ha]; [|now cbn].
    destruct (in_str c (whitespace L)); [auto|].
    destruct (in_str c (quotes L)); [now cbn|].
    destruct (in_str c (escape L)); now cbn.
Qed.

(** Some character of [s] is a whitespace character met outside
    quotes and not after an escape character, when the scan of [s]
    starts in [st]. *)
Fixpoint sees_unquoted_whitespace (L : ShellLexer) (st : ScanState) (s : pystr)
  : bool :=
  match s with
  | [] => false
  | c :: s' =>
      (in_str c (whitespace L) && ((state st =? SP) || (state st =? A)))
      || sees_unquoted_whitespace L (fst (step L st c)) s'
  end.

Lemma scan_one_word (L : ShellLexer) (s : pystr) : forall st,
  sees_unquoted_whitespace L st s = false ->
  snd (scan L st s) = [].
Proof.
  induction s as [|c s IH]; intros st; simpl; auto.
  intros H. apply orb_false_iff in H as [Hc Hs].
  pose proof (step_yields L st c) as Hy.
  destruct (step L st c) as [st1 ys1]; cbn [fst snd] in *.
  specialize (IH _ Hs).
  destruct (scan L st1 s) as [st2 ys2]; cbn [snd] in *. subst ys2.
  rewrite app_nil_r.
  destruct ys1 as [|y ys1]; [reflexivity|].
  destruct Hy as [Hw Hst]; [discriminate|].
  rewrite Hw in Hc.
  destruct Hst as [E | E]; rewrite E in Hc; discriminate Hc.
Qed.

(** C7: one token may span quoted and unquoted segments.  When the
    scan of [s] meets no whitespace outside quotes, [split] returns at
    most one token, the accumulator at the end of the input; so with
    the default flags the seven characters [a dq b sp c dq d] are the
    single token [ab cd]. *)
Theorem split_one_word :
  (forall s k p,
     sees_unquoted_whitespace (split_lexer s k p) reset s = false ->
     split s k p
     = finish (split_lexer s k p) (final_state (split_lexer s k p))
     /\ (length (split s k p) <= 1)%nat)
  /\ split (str "a" ++ dquote (str "b c") ++ str "d") false false
     = [str "ab cd"].
Proof.
  split; [|reflexivity].
  intros s k p H.
  assert (Hy : yielded (split_lexer s k p) = []).
  { unfold yielded.
    replace (string_ (split_lexer s k p)) with s by now destruct p.
    now apply scan_one_word. }
  rewrite split_unfold, Hy. cbn [app].
  assert (Hf : forall ts, (length ts <= 1)%nat -> reassemble ts = ts).
  { intros [|t [|t' ts]] Hl; cbn [length] in Hl;
      [reflexivity | apply reassemble_single | lia]. }
  assert (Hl : (length (finish (split_lexer s k p)
                          (final_state (split_lexer s k p))) <= 1)%nat).
  { unfold finish. destruct (pending _); cbn; lia. }
  rewrite (Hf _ Hl). split; [reflexivity | exact Hl].
Qed.

Lemma split_one_word_witness :
  split (str "a" ++ dquote (str "b c") ++ str "d") false false
  = finish (split_lexer (str "a" ++ dquote (str "b c") ++ str "d") false false)
      (final_state
         (split_lexer (str "a" ++ dquote (str "b c") ++ str "d") false false))
  /\ (length (split (str "a" ++ dquote (str "b c") ++ str "d") false false)
      <= 1)%nat.
Proof.
  apply (proj1 split_one_word
           (str "a" ++ dquote (str "b c") ++ str "d") false false).
  reflexivity.
Defined.

(** ** Whitespace only *)

Definition lexer_whitespace (c : char) : bool := in_str c [SP; TAB; CR].

Lemma lexer_whitespace_isspace (c : char) :
  lexer_whitespace c = true -> isspace [c] = true.
Proof.
  unfold lexer_whitespace. cbn -[N.eqb].
  case_eqb; intros H; try discriminate; reflexivity.
Qed.

Lemma step_whitespace_keep (s0 : pystr) (c : char) :
  lexer_whitespace c = true ->
  step (split_lexer s0 true false) reset c = (reset, [[c]]).
Proof.
  intros Hc. unfold step. cbn -[in_str].
  unfold lexer_whitespace in Hc. now rewrite Hc.
Qed.

Lemma step_whitespace_plain (s0 : pystr) (c : char) :
  lexer_whitespace c = true ->
  step (split_lexer s0 false false) reset c = (reset, []).
Proof.
  intros Hc. unfold step. cbn -[in_str].
  unfold lexer_whitespace in Hc. now rewrite Hc.
Qed.

Lemma scan_whitespace_keep (s0 s : pystr) :
  forallb lexer_whitespace s = true ->
  scan (split_lexer s0 true false) reset s = (reset, map (fun c => [c]) s).
Proof.
  induction s as [|c s IH]; cbn [scan forallb map]; auto.
  intros H. apply andb_true_iff in H as [Hc Hs].
  now rewrite (step_whitespace_keep _ _ Hc), (IH Hs).
Qed.

Lemma scan_whitespace_plain (s0 s : pystr) :
  forallb lexer_whitespace s = true ->
  scan (split_lexer s0 false false) reset s = (reset, []).
Proof.
  induction s as [|c s IH]; cbn [scan forallb]; auto.
  intros H. apply andb_true_iff in H as [Hc Hs].
  now rewrite (step_whitespace_plain _ _ Hc), (IH Hs).
Qed.

Lemma walk_whitespace (s : pystr) : forall out spaces,
  forallb lexer_whitespace s = true ->
  walk (map (fun c => [c]) s) out spaces = (out, spaces ++ s).
Proof.
  induction s as [|c s IH]; intros out spaces H; simpl.
  - now rewrite app_nil_r.
  - simpl in H. apply andb_true_iff in H as [Hc Hs].
    rewrite (lexer_whitespace_isspace _ Hc), (IH _ _ Hs).
    now rewrite <- app_assoc.
Qed.

(** C9: the empty string splits into no token; a string of lexer
    whitespace only, such as two spaces, splits into no token with
    [keep=False] and, when it is not empty, into the one token that is
    the whole string with [keep=True].  That token is the pending
    whitespace buffer, which the splitter emits when it is left
    non-empty after the last fragment. *)
Theorem split_whitespace_only :
  (forall k, split [] k false = [])
  /\ split (str "  ") false false = []
  /\ split (str "  ") true false = [str "  "]
  /\ (forall s, forallb lexer_whitespace s = true ->
        split s false false = []
        /\ (s <> [] -> split s true false = [s]))
  /\ (forall ts, ts <> [] -> snd (walk ts [] []) <> [] ->
        reassemble ts = fst (walk ts [] []) ++ [snd (walk ts [] [])]).
Proof.
  split; [now intros [|]|].
  split; [reflexivity|]. split; [reflexivity|]. split.
  - intros s Hs. split.
    + unfold split, iter; cbn [string_ split_lexer set_keep ShellLexer_init].
      change (scan _ reset s)
        with (scan (split_lexer s false false) reset s).
      now rewrite scan_whitespace_plain.
    + intros Hne.
      unfold split, iter; cbn [string_ split_lexer set_keep ShellLexer_init].
      change (scan _ reset s)
        with (scan (split_lexer s true false) reset s).
      rewrite scan_whitespace_keep by assumption.
      cbn [finish]. unfold finish; cbn. rewrite app_nil_r.
      unfold reassemble. rewrite walk_whitespace by assumption.
      destruct s as [|c s]; [contradiction|]. reflexivity.
  - intros ts Hne Hsp. unfold reassemble.
    destruct ts as [|t ts]; [contradiction|].
    cbv beta iota delta [negb].
    destruct (walk (t :: ts) [] []) as [out spaces]; cbn [fst snd] in *.
    destruct spaces; [contradiction | reflexivity].
Qed.

Lemma split_whitespace_only_witness :
  split [SP; TAB; CR] false false = []
  /\ split [SP; TAB; CR] true false = [[SP; TAB; CR]].
Proof.
  destruct (proj1 (proj2 (proj2 (proj2 split_whitespace_only)))
              [SP; TAB; CR] eq_refl) as [Hplain Hkeep].
  split; [exact Hplain | apply Hkeep; discriminate].
Defined.

(** * Further properties of the lexer and of the splitter *)

Lemma scan_app (L : ShellLexer) (s1 s2 : pystr) : forall st,
  scan L st (s1 ++ s2)
  = (fst (scan L (fst (scan L st s1)) s2),
     snd (scan L st s1) ++ snd (scan L (fst (scan L st s1)) s2)).
Proof.
  induction s1 as [|c s1 IH]; intros st; cbn [app scan fst snd].
  - now destruct (scan L st s2).
  - destruct (step L st c) as [st1 ys1].
    rewrite IH.
    destruct (scan L st1 s1) as [st2 ys2]; cbn [fst snd].
    now rewrite app_assoc.
Qed.

Lemma string_split_lexer (s : pystr) (k p : bool) :
  string_ (split_lexer s k p) = s.
Proof. now destruct p. Qed.

Lemma iter_unfold (s : pystr) (k p : bool) :
  iter (split_lexer s k p)
  = snd (scan (split_lexer s k p) reset s)
    ++ finish (split_lexer s k p) (fst (scan (split_lexer s k p) reset s)).
Proof.
  unfold iter. rewrite string_split_lexer.
  now destruct (scan (split_lexer s k p) reset s).
Qed.

(** ** The scan with [keep=False] and [placeholder=False] *)

(** How [s] is written inside double quotes: a backslash before every
    double quote and every backslash. *)
Definition dq_escape (s : pystr) : pystr :=
  flat_map (fun c => if (c =? DQ) || (c =? BS) then [BS; c] else [c]) s.

(** How [s] is written outside quotes with a backslash before every
    character. *)
Definition bs_escape (s : pystr) : pystr := flat_map (fun c => [BS; c]) s.

(** An ordinary character: no lexer whitespace, quote or backslash. *)
Definition ordinary (c : char) : bool := negb (in_str c [SP; TAB; CR; SQ; DQ; BS]).

Ltac step_cases Hstd Hkeep Hplain :=
  let Hw := fresh "Hw" in let Hq := fresh "Hq" in
  let He := fresh "He" in let Hd := fresh "Hd" in
  destruct Hstd as (Hw & Hq & He & Hd);
  unfold step; cbn [state token escapedstate quoted];
  rewrite Hw, Hq, He, Hd, Hkeep, Hplain;
  cbn -[N.eqb]; case_eqb; try congruence; try reflexivity.

Section PlainMode.
Variable L : ShellLexer.
Hypothesis Hstd : standard L.
Hypothesis Hkeep : keep L = false.
Hypothesis Hplain : placeholder L = false.

Lemma step_idle_quote (c : char) :
  in_str c [SQ; DQ] = true ->
  step L reset c = (mkScan false SP [] c, []).
Proof.
  cbn -[N.eqb]. intros Hc. revert Hc.
  step_cases Hstd Hkeep Hplain.
Qed.

Lemma step_squote_body (q : bool) (e : char) (t : pystr) (c : char) :
  c <> SQ ->
  step L (mkScan q e t SQ) c = (mkScan true e (t ++ [c]) SQ, []).
Proof. intros Hc. step_cases Hstd Hkeep Hplain. Qed.

Lemma step_quote_close (q : bool) (e : char) (t : pystr) (c : char) :
  in_str c [SQ; DQ] = true ->
  step L (mkScan q e t c) c = (mkScan true e t A, []).
Proof.
  cbn -[N.eqb]. intros Hc. revert Hc.
  step_cases Hstd Hkeep Hplain.
Qed.

Lemma scan_squote_body (w : pystr) : forall q e t,
  in_str SQ w = false ->
  scan L (mkScan q e t SQ) w = (mkScan (q || nonempty w) e (t ++ w) SQ, []).
Proof.
  induction w as [|c w IH]; intros q e t Hw; cbn [scan].
  - now rewrite orb_false_r, app_nil_r.
  - cbn -[N.eqb] in Hw. apply orb_false_iff in Hw as [Hc Hw].
    rewrite step_squote_body
      by (intros ->; apply N.eqb_neq in Hc; now apply Hc).
    rewrite (IH _ _ _ Hw), <- app_assoc. cbn. now rewrite orb_true_r.
Qed.

Lemma step_dquote_plain (q : bool) (e : char) (t : pystr) (c : char) :
  c <> DQ -> c <> BS ->
  step L (mkScan q e t DQ) c = (mkScan true e (t ++ [c]) DQ, []).
Proof. intros Hc Hc'. step_cases Hstd Hkeep Hplain. Qed.

Lemma step_dquote_backslash (q : bool) (e : char) (t : pystr) :
  step L (mkScan q e t DQ) BS = (mkScan true DQ t BS, []).
Proof. step_cases Hstd Hkeep Hplain. Qed.

(** After a backslash in a double quote, a double quote or a backslash
    is taken alone; any other character keeps the backslash before it. *)
Lemma step_dquote_escaped (q : bool) (t : pystr) (c : char) :
  step L (mkScan q DQ t BS) c
  = (mkScan q DQ
       (t ++ (if (c =? DQ) || (c =? BS) then [c] else [BS; c])) DQ, []).
Proof.
  step_cases Hstd Hkeep Hplain;
    unfold set_state, add_token, set_token; cbn;
    rewrite <- ?app_assoc; reflexivity.
Qed.

Lemma scan_dq_escape (w : pystr) : forall q e t,
  exists e',
    scan L (mkScan q e t DQ) (dq_escape w)
    = (mkScan (q || nonempty w) e' (t ++ w) DQ, []).
Proof.
  induction w as [|c w IH]; intros q e t.
  - exists e. cbn. now rewrite orb_false_r, app_nil_r.
  - unfold dq_escape; cbn [flat_map]. fold (dq_escape w).
    destruct ((c =? DQ) || (c =? BS)) eqn:Hc.
    + cbn [app scan].
      rewrite step_dquote_backslash, step_dquote_escaped, Hc.
      destruct (IH true DQ (t ++ [c])) as [e' ->].
      exists e'. rewrite <- app_assoc. cbn. now rewrite orb_true_r.
    + apply orb_false_iff in Hc as [Hc1 Hc2].
      apply N.eqb_neq in Hc1, Hc2.
      cbn [app scan]. rewrite step_dquote_plain by assumption.
      destruct (IH true e (t ++ [c])) as [e' ->].
      exists e'. rewrite <- app_assoc. cbn. now rewrite orb_true_r.
Qed.

Lemma step_idle_backslash :
  step L reset BS = (mkScan false A [] BS, []).
Proof. step_cases Hstd Hkeep Hplain. Qed.

Lemma step_word_backslash (q : bool) (e : char) (t : pystr) :
  step L (mkScan q e t A) BS = (mkScan q A t BS, []).
Proof. step_cases Hstd Hkeep Hplain. Qed.

Lemma step_word_escaped (q : bool) (t : pystr) (c : char) :
  step L (mkScan q A t BS) c = (mkScan q A (t ++ [c]) A, []).
Proof. step_cases Hstd Hkeep Hplain. Qed.

Lemma scan_bs_escape (w : pystr) : forall q e t,
  exists e',
    scan L (mkScan q e t A) (bs_escape w) = (mkScan q e' (t ++ w) A, []).
Proof.
  induction w as [|c w IH]; intros q e t.
  - exists e. cbn. now rewrite app_nil_r.
  - unfold bs_escape; cbn [flat_map app scan]. fold (bs_escape w).
    rewrite step_word_backslash, step_word_escaped.
    destruct (IH q A (t ++ [c])) as [e' ->].
    exists e'. now rewrite <- app_assoc.
Qed.

Lemma step_idle_ordinary (c : char) :
  ordinary c = true ->
  step L reset c = (mkScan false SP [c] A, []).
Proof.
  unfold ordinary. cbn -[N.eqb]. intros Hc. revert Hc.
  step_cases Hstd Hkeep Hplain.
Qed.

Lemma step_word_ordinary (q : bool) (e : char) (t : pystr) (c : char) :
  ordinary c = true ->
  step L (mkScan q e t A) c = (mkScan q e (t ++ [c]) A, []).
Proof.
  unfold ordinary. cbn -[N.eqb]. intros Hc. revert Hc.
  step_cases Hstd Hkeep Hplain.
Qed.

Lemma scan_word_ordinary (w : pystr) : forall q e t,
  forallb ordinary w = true ->
  scan L (mkScan q e t A) w = (mkScan q e (t ++ w) A, []).
Proof.
  induction w as [|c w IH]; intros q e t Hw; cbn [scan].
  - now rewrite app_nil_r.
  - cbn [forallb] in Hw. apply andb_true_iff in Hw as [Hc Hw].
    rewrite (step_word_ordinary _ _ _ _ Hc), (IH _ _ _ Hw), <- app_assoc.
    reflexivity.
Qed.

Lemma finish_word (q : bool) (e : char) (t : pystr) :
  nonempty t || q = true ->
  finish L (mkScan q e t A) = [t].
Proof.
  intros Hp. unfold finish.
  destruct Hstd as (_ & _ & He & _). rewrite He.
  cbn. unfold pending. cbn. now rewrite Hp.
Qed.
End PlainMode.

(** ** Quoting *)

(** X1: a text without a single quote, written between single quotes,
    is one token, the text itself: whitespace, double quotes and
    backslashes in it are ordinary characters, and the empty text gives
    the empty token. *)
Theorem split_squote (w : pystr) :
  in_str SQ w = false ->
  split (squote w) false false = [w].
Proof.
  intros Hw. unfold split. rewrite iter_unfold.
  set (L := split_lexer (squote w) false false).
  pose proof (split_lexer_standard (squote w) false false) as HL.
  unfold squote. cbn [scan].
  rewrite (step_idle_quote L HL eq_refl eq_refl SQ eq_refl).
  rewrite scan_app, (scan_squote_body L HL eq_refl eq_refl w _ _ _ Hw).
  cbn [fst snd scan app].
  rewrite (step_quote_close L HL eq_refl eq_refl _ _ _ SQ eq_refl).
  cbn [fst snd app].
  rewrite (finish_word L HL) by apply orb_true_r.
  apply reassemble_single.
Qed.

Lemma split_squote_witness :
  split (squote (str "a  b" ++ [BS] ++ dquote (str "c"))) false false
  = [str "a  b" ++ [BS] ++ dquote (str "c")].
Proof. apply split_squote. reflexivity. Defined.

(** X2: any text at all, written between double quotes with a
    backslash before each of its double quotes and backslashes, is one
    token, the text itself. *)
Theorem split_dquote_escaped (w : pystr) :
  split (dquote (dq_escape w)) false false = [w].
Proof.
  unfold split. rewrite iter_unfold.
  set (L := split_lexer (dquote (dq_escape w)) false false).
  pose proof (split_lexer_standard (dquote (dq_escape w)) false false) as HL.
  unfold dquote. cbn [scan].
  rewrite (step_idle_quote L HL eq_refl eq_refl DQ eq_refl).
  rewrite scan_app.
  destruct (scan_dq_escape L HL eq_refl eq_refl w false SP []) as [e' ->].
  cbn [fst snd scan app].
  rewrite (step_quote_close L HL eq_refl eq_refl _ _ _ DQ eq_refl).
  cbn [fst snd app].
  rewrite (finish_word L HL) by apply orb_true_r.
  apply reassemble_single.
Qed.

(** X3: a non-empty text written outside quotes with a backslash before
    every character is one token, the text itself: an escaped
    whitespace, quote or backslash is an ordinary character. *)
Theorem split_bs_escaped (w : pystr) :
  w <> [] ->
  split (bs_escape w) false false = [w].
Proof.
  intros Hw. destruct w as [|c w]; [contradiction|].
  unfold split. rewrite iter_unfold.
  set (L := split_lexer (bs_escape (c :: w)) false false).
  pose proof (split_lexer_standard (bs_escape (c :: w)) false false) as HL.
  unfold bs_escape. cbn [flat_map app scan]. fold (bs_escape w).
  rewrite (step_idle_backslash L HL eq_refl eq_refl).
  rewrite (step_word_escaped L HL eq_refl eq_refl).
  destruct (scan_bs_escape L HL eq_refl eq_refl w false A ([] ++ [c]))
    as [e' ->].
  cbn [fst snd app].
  rewrite (finish_word L HL) by reflexivity.
  apply reassemble_single.
Qed.

Lemma split_bs_escaped_witness :
  split (bs_escape (str "a 'b")) false false = [str "a 'b"].
Proof. apply split_bs_escaped. discriminate. Defined.

(** X4: a non-empty text of ordinary characters only (no space, tab,
    carriage return, quote or backslash) is one token, the text itself. *)
Theorem split_ordinary_word (w : pystr) :
  w <> [] ->
  forallb ordinary w = true ->
  split w false false = [w].
Proof.
  intros Hne Hw. destruct w as [|c w]; [contradiction|].
  unfold split. rewrite iter_unfold.
  set (L := split_lexer (c :: w) false false).
  pose proof (split_lexer_standard (c :: w) false false) as HL.
  cbn [forallb] in Hw. apply andb_true_iff in Hw as [Hc Hw].
  cbn [scan].
  rewrite (step_idle_ordinary L HL eq_refl eq_refl c Hc).
  rewrite (scan_word_ordinary L HL eq_refl eq_refl w _ _ _ Hw).
  cbn [fst snd app].
  rewrite (finish_word L HL) by reflexivity.
  apply reassemble_single.
Qed.

Lemma split_ordinary_word_witness :
  split (str "example.com") false false = [str "example.com"].
Proof. apply split_ordinary_word; [discriminate | reflexivity]. Defined.

(** ** Unquoted whitespace separates independent scans *)

(** The lexer reads its character classes and flags only, never the
    string it holds, while it handles a character. *)
Lemma step_string (s s' : pystr) (k p : bool) (st : ScanState) (c : char) :
  step (split_lexer s k p) st c = step (split_lexer s' k p) st c.
Proof. now destruct p. Qed.

Lemma scan_string (s s' : pystr) (k p : bool) (w : pystr) : forall st,
  scan (split_lexer s k p) st w = scan (split_lexer s' k p) st w.
Proof.
  induction w as [|c w IH]; intros st; cbn [scan]; auto.
  rewrite (step_string s s'). destruct (step _ st c) as [st1 ys1].
  now rewrite IH.
Qed.

Lemma finish_string (s s' : pystr) (k p : bool) (st : ScanState) :
  finish (split_lexer s k p) st = finish (split_lexer s' k p) st.
Proof. now destruct p. Qed.

(** What holds of the scanner state throughout a scan with
    [keep=False] and [placeholder=False]: the idle state is the reset
    state, the word state has something to yield, and the escape state
    remembers a word or quote state. *)
Definition settled (st : ScanState) : Prop :=
  (state st = SP /\ token st = [] /\ quoted st = false
   /\ escapedstate st = SP)
  \/ (state st = A /\ pending st = true)
  \/ state st = SQ
  \/ state st = DQ
  \/ (state st = BS
      /\ (escapedstate st = A \/ escapedstate st = SQ \/ escapedstate st = DQ)).

Lemma settled_reset : settled reset.
Proof. left. repeat split. Qed.

Section PlainInvariant.
Variable L : ShellLexer.
Hypothesis Hstd : standard L.
Hypothesis Hkeep : keep L = false.
Hypothesis Hplain : placeholder L = false.

Lemma step_settled (st : ScanState) (c : char) :
  settled st -> settled (fst (step L st c)).
Proof.
  destruct Hstd as (Hw & Hq & He & Hd).
  destruct st as [q e t s].
  unfold settled, step, pending; cbn [state token escapedstate quoted].
  rewrite Hw, Hq, He, Hd, Hkeep, Hplain.
  intros [(-> & -> & -> & ->) | [[-> Hp] | [-> | [-> | [-> Hesc]]]]].
  - cbn -[N.eqb]. case_eqb; cbn; tauto.
  - cbn -[N.eqb]. destruct t, q; try discriminate Hp;
      case_eqb; cbn; rewrite ?orb_true_r; tauto.
  - cbn -[N.eqb]. case_eqb; cbn; rewrite ?orb_true_r; tauto.
  - cbn -[N.eqb]. case_eqb; cbn; rewrite ?orb_true_r; tauto.
  - destruct Hesc as [-> | [-> | ->]]; cbn -[N.eqb]; case_eqb; cbn;
      try (right; left; split; [reflexivity|]; now destruct t);
      tauto.
Qed.

Lemma scan_settled (s : pystr) : forall st,
  settled st -> settled (fst (scan L st s)).
Proof.
  induction s as [|c s IH]; intros st Hst; cbn [scan fst]; auto.
  pose proof (step_settled st c Hst) as H1.
  destruct (step L st c) as [st1 ys1]; cbn [fst] in H1.
  specialize (IH _ H1).
  now destruct (scan L st1 s).
Qed.

(** A whitespace character met outside quotes ends the token: the
    scan yields what the end of the input would have yielded, and is
    back in the reset state. *)
Lemma step_settled_whitespace (st : ScanState) (c : char) :
  settled st ->
  lexer_whitespace c = true ->
  in_str (state st) [SQ; DQ; BS] = false ->
  step L st c = (reset, finish L st).
Proof.
  destruct Hstd as (Hw & Hq & He & Hd).
  destruct st as [q e t s].
  unfold settled, step, finish, pending, lexer_whitespace;
    cbn [state token escapedstate quoted].
  rewrite Hw, Hq, He, Hkeep, Hplain.
  intros [(-> & -> & -> & ->) | [[-> Hp] | [-> | [-> | [-> Hesc]]]]] Hc;
    try discriminate.
  - intros _. cbn -[in_str]. now rewrite Hc.
  - intros _. cbn -[in_str nonempty]. rewrite Hc. cbn -[nonempty].
    now rewrite Hp.
Qed.
End PlainInvariant.

(** The lexer with [keep=False] and [placeholder=False], whatever
    string it holds. *)
Definition plain_lexer : ShellLexer := split_lexer [] false false.

Lemma plain_standard : standard plain_lexer.
Proof. repeat split. Qed.

Lemma iter_plain (s : pystr) :
  iter (split_lexer s false false)
  = snd (scan plain_lexer reset s)
    ++ finish plain_lexer (fst (scan plain_lexer reset s)).
Proof.
  rewrite iter_unfold. unfold plain_lexer.
  now rewrite (scan_string s []), (finish_string s []).
Qed.

Lemma ends_open_plain (s : pystr) :
  ends_open (split_lexer s false false) = false ->
  in_str (state (fst (scan plain_lexer reset s))) [SQ; DQ; BS] = false.
Proof.
  unfold ends_open, final_state. rewrite string_split_lexer.
  rewrite (scan_string s [] false false). fold plain_lexer.
  cbn -[N.eqb scan].
  destruct (_ =? SQ), (_ =? DQ), (_ =? BS); auto.
Qed.

Lemma final_settled (s : pystr) : settled (fst (scan plain_lexer reset s)).
Proof.
  apply (scan_settled plain_lexer plain_standard eq_refl eq_refl).
  apply settled_reset.
Qed.

Lemma iter_at_whitespace (s1 s2 : pystr) (c : char) :
  lexer_whitespace c = true ->
  ends_open (split_lexer s1 false false) = false ->
  iter (split_lexer (s1 ++ c :: s2) false false)
  = iter (split_lexer s1 false false) ++ iter (split_lexer s2 false false).
Proof.
  intros Hc Hopen. rewrite !iter_plain, scan_app.
  cbn [fst snd scan].
  rewrite (step_settled_whitespace plain_lexer plain_standard eq_refl eq_refl
             _ c (final_settled s1) Hc (ends_open_plain s1 Hopen)).
  destruct (scan plain_lexer reset s2) as [st2 ys2]; cbn [fst snd].
  now rewrite <- !app_assoc.
Qed.

(** X5: with [keep=False] and [placeholder=False], when [s1] ends
    outside quotes and not after an escape character, the fragments of
    [s1], a whitespace character and [s2] are the fragments of [s1]
    followed by those of [s2]. *)
Theorem iter_whitespace_between (s1 s2 : pystr) (c : char) :
  lexer_whitespace c = true ->
  ends_open (split_lexer s1 false false) = false ->
  iter (split_lexer (s1 ++ c :: s2) false false)
  = iter (split_lexer s1 false false) ++ iter (split_lexer s2 false false).
Proof. apply iter_at_whitespace. Qed.

Lemma iter_whitespace_between_witness :
  iter (split_lexer (str "a 'b c'" ++ TAB :: str "d") false false)
  = iter (split_lexer (str "a 'b c'") false false)
    ++ iter (split_lexer (str "d") false false).
Proof. apply iter_whitespace_between; reflexivity. Defined.

(** ** Words joined by spaces *)

(** [' '.join(words)] *)
Fixpoint join_sp (words : list pystr) : pystr :=
  match words with
  | [] => []
  | [w] => w
  | w :: ws => w ++ SP :: join_sp ws
  end.

(** A word that needs no quoting: not empty, of ordinary characters
    only, and not made of whitespace only for [str.isspace] (a lone
    newline is an ordinary character for the lexer). *)
Definition bare_word (w : pystr) : bool :=
  nonempty w && forallb ordinary w && negb (isspace w).

Lemma iter_ordinary_word (w : pystr) :
  nonempty w = true ->
  forallb ordinary w = true ->
  iter (split_lexer w false false) = [w]
  /\ ends_open (split_lexer w false false) = false.
Proof.
  intros Hne Hw. destruct w as [|c w]; [discriminate|].
  cbn [forallb] in Hw. apply andb_true_iff in Hw as [Hc Hw].
  unfold ends_open, final_state. rewrite iter_unfold, string_split_lexer.
  set (L := split_lexer (c :: w) false false).
  pose proof (split_lexer_standard (c :: w) false false) as HL.
  cbn [scan].
  rewrite (step_idle_ordinary L HL eq_refl eq_refl c Hc).
  rewrite (scan_word_ordinary L HL eq_refl eq_refl w _ _ _ Hw).
  cbn [fst snd app].
  rewrite (finish_word L HL) by reflexivity.
  split; reflexivity.
Qed.

Lemma iter_join_sp (words : list pystr) :
  forallb bare_word words = true ->
  iter (split_lexer (join_sp words) false false) = words.
Proof.
  induction words as [|w ws IH]; [reflexivity|].
  cbn [forallb]. intros H. apply andb_true_iff in H as [Hw Hws].
  unfold bare_word in Hw.
  apply andb_true_iff in Hw as [Hw _]. apply andb_true_iff in Hw as [Hne Hw].
  destruct (iter_ordinary_word w Hne Hw) as [Hi Ho].
  destruct ws as [|w' ws]; [exact Hi|].
  change (join_sp (w :: w' :: ws)) with (w ++ SP :: join_sp (w' :: ws)).
  rewrite iter_at_whitespace by (reflexivity || assumption).
  now rewrite Hi, (IH Hws).
Qed.

Lemma walk_no_space (ts : list pystr) : forall out,
  forallb (fun t => negb (isspace t)) ts = true ->
  walk ts out [] = (out ++ ts, []).
Proof.
  induction ts as [|t ts IH]; intros out H; cbn [walk].
  - now rewrite app_nil_r.
  - cbn [forallb] in H. apply andb_true_iff in H as [Ht Hts].
    apply negb_true_iff in Ht. rewrite Ht, (IH _ Hts), <- app_assoc.
    reflexivity.
Qed.

(** When no fragment is whitespace only, the splitter returns the
    fragments as they are. *)
Lemma reassemble_no_space (ts : list pystr) :
  forallb (fun t => negb (isspace t)) ts = true ->
  reassemble ts = ts.
Proof.
  intros H. unfold reassemble. destruct ts as [|t ts]; [reflexivity|].
  cbv beta iota delta [negb]. now rewrite (walk_no_space _ [] H).
Qed.

(** X6: [split(' '.join(words))] is [words], for words that need no
    quoting. *)
Theorem split_join_sp (words : list pystr) :
  forallb bare_word words = true ->
  split (join_sp words) false false = words.
Proof.
  intros H. unfold split. rewrite (iter_join_sp _ H).
  apply reassemble_no_space.
  apply forallb_forall. intros w Hin.
  rewrite forallb_forall in H. specialize (H w Hin).
  unfold bare_word in H. now apply andb_true_iff in H as [_ H].
Qed.

Lemma split_join_sp_witness :
  split (join_sp [str "open"; str "-t"; str "example.com"]) false false
  = [str "open"; str "-t"; str "example.com"].
Proof. apply split_join_sp. reflexivity. Defined.

(** X7: a word of ordinary characters that is whitespace for
    [str.isspace] (a newline, say) is a fragment for the lexer but
    pending whitespace for the splitter, so [split] glues it to the word
    that follows it, without the space that separated them: the
    condition on such words in the round trip of [' '.join] cannot be
    dropped. *)
Theorem split_isspace_word_glued (v w : pystr) :
  forallb ordinary v = true ->
  isspace v = true ->
  nonempty w = true ->
  forallb ordinary w = true ->
  isspace w = false ->
  split (v ++ SP :: w) false false = [v ++ w].
Proof.
  intros Hv Hvs Hne Hw Hsp. unfold split.
  assert (Hvne : nonempty v = true).
  { unfold isspace in Hvs. now apply andb_true_iff in Hvs as [Hvs _]. }
  destruct (iter_ordinary_word v Hvne Hv) as [Hi Ho].
  rewrite iter_at_whitespace by (reflexivity || assumption).
  rewrite Hi. destruct (iter_ordinary_word w Hne Hw) as [-> _].
  unfold reassemble. cbn [app negb walk].
  now rewrite Hvs, Hsp.
Qed.

Lemma split_isspace_word_glued_witness :
  split ([10] ++ SP :: str "b") false false = [[10] ++ str "b"].
Proof. apply split_isspace_word_glued; reflexivity. Defined.

(** ** Whitespace around the input *)

Lemma scan_whitespace_reset (w : pystr) :
  forallb lexer_whitespace w = true ->
  scan plain_lexer reset w = (reset, []).
Proof. apply scan_whitespace_plain. Qed.

Lemma finish_reset : finish plain_lexer reset = [].
Proof. reflexivity. Qed.

(** X8: with [keep=False] and [placeholder=False], whitespace before
    the input, and whitespace after an input that ends outside quotes
    and not after an escape character, changes nothing. *)
Theorem split_surrounding_whitespace (w1 s w2 : pystr) :
  forallb lexer_whitespace w1 = true ->
  forallb lexer_whitespace w2 = true ->
  ends_open (split_lexer s false false) = false ->
  split (w1 ++ s ++ w2) false false = split s false false.
Proof.
  intros H1 H2 Hopen. unfold split. f_equal.
  rewrite !iter_plain, !scan_app, (scan_whitespace_reset _ H1).
  cbn [fst snd app].
  destruct w2 as [|c w2].
  - cbn [scan fst snd]. now rewrite app_nil_r.
  - cbn [forallb] in H2. apply andb_true_iff in H2 as [Hc H2].
    cbn [scan].
    rewrite (step_settled_whitespace plain_lexer plain_standard
               eq_refl eq_refl _ c (final_settled s) Hc
               (ends_open_plain s Hopen)).
    rewrite (scan_whitespace_reset _ H2). cbn [fst snd].
    now rewrite finish_reset, !app_nil_r.
Qed.

Lemma split_surrounding_whitespace_witness :
  split (str "  " ++ str "a 'b c'" ++ [TAB; SP]) false false
  = split (str "a 'b c'") false false.
Proof. apply split_surrounding_whitespace; reflexivity. Defined.

(** ** What the splitter keeps of its fragments *)

Lemma walk_chars (P : char -> bool) (ts : list pystr) : forall out spaces,
  Forall (fun t => forallb P t = true) out ->
  forallb P spaces = true ->
  Forall (fun t => forallb P t = true) ts ->
  Forall (fun t => forallb P t = true) (fst (walk ts out spaces))
  /\ forallb P (snd (walk ts out spaces)) = true.
Proof.
  induction ts as [|t ts IH]; intros out spaces Hout Hsp Hts; cbn [walk].
  - now split.
  - inversion Hts as [|? ? Ht Hts']; subst.
    destruct (isspace t); apply IH; auto.
    + now rewrite forallb_app, Hsp, Ht.
    + apply Forall_app. split; auto.
      constructor; auto. now rewrite forallb_app, Hsp, Ht.
Qed.

(** Every character of a token comes from a fragment. *)
Lemma reassemble_chars (P : char -> bool) (ts : list pystr) :
  Forall (fun t => forallb P t = true) ts ->
  Forall (fun t => forallb P t = true) (reassemble ts).
Proof.
  intros Hts. unfold reassemble.
  destruct ts as [|t ts]; [constructor|].
  cbv beta iota delta [negb].
  destruct (walk_chars P (t :: ts) (@nil pystr) (@nil char)
              (Forall_nil _) eq_refl Hts)
    as [Hout Hsp].
  destruct (walk (t :: ts) [] []) as [out spaces]; cbn [fst snd] in *.
  destruct (nonempty spaces); auto.
  apply Forall_app. split; auto.
Qed.

Lemma walk_nonempty (ts : list pystr) : forall out spaces,
  Forall (fun t => nonempty t = true) out ->
  Forall (fun t => nonempty t = true) ts ->
  Forall (fun t => nonempty t = true) (fst (walk ts out spaces)).
Proof.
  induction ts as [|t ts IH]; intros out spaces Hout Hts; cbn [walk]; auto.
  inversion Hts as [|? ? Ht Hts']; subst.
  destruct (isspace t); apply IH; auto.
  apply Forall_app. split; auto.
  constructor; auto. destruct t; [discriminate|]. now destruct spaces.
Qed.

(** No token is empty unless a fragment is. *)
Lemma reassemble_nonempty (ts : list pystr) :
  Forall (fun t => nonempty t = true) ts ->
  Forall (fun t => nonempty t = true) (reassemble ts).
Proof.
  intros Hts. unfold reassemble.
  destruct ts as [|t ts]; [constructor|].
  cbv beta iota delta [negb].
  pose proof (walk_nonempty (t :: ts) (@nil pystr) (@nil char)
                (Forall_nil _) Hts) as Hout.
  destruct (walk (t :: ts) [] []) as [out spaces]; cbn [fst] in *.
  destruct (nonempty spaces) eqn:Hsp; auto.
  apply Forall_app. split; auto.
Qed.

(** X9: whatever the flags, the tokens [split] returns, concatenated,
    are the fragments of the lexer, concatenated: merging whitespace
    fragments into the next token loses, adds and reorders nothing. *)
Theorem split_keeps_fragment_text (s : pystr) (k p : bool) :
  concat (split s k p) = concat (iter (split_lexer s k p)).
Proof. apply reassemble_concat. Qed.

(** X10: with [keep=True] the tokens of [split], and already the
    fragments of the lexer, concatenated, are the input, for every
    input: also for one that ends inside a quote or right after an
    escape character. *)
Theorem split_keep_roundtrip_any (s : pystr) :
  concat (iter (split_lexer s true false)) = s
  /\ concat (split s true false) = s.
Proof.
  split; [|apply split_keep_concat].
  rewrite <- (string_split_lexer s true false) at 2.
  apply iter_keep; auto using split_lexer_standard.
Qed.

(** ** Input without quotes and backslashes *)

Definition not_ws (c : char) : bool := negb (lexer_whitespace c).

Definition unquoted_char (c : char) : bool := negb (in_str c [SQ; DQ; BS]).

(** The states of a scan that has met no quote and no backslash: the
    reset state, or a word whose accumulator is not empty and holds no
    whitespace. *)
Definition wordy (st : ScanState) : Prop :=
  st = reset
  \/ (state st = A /\ quoted st = false /\ escapedstate st = SP
      /\ nonempty (token st) = true
      /\ forallb not_ws (token st) = true).

Lemma step_unquoted (st : ScanState) (c : char) :
  unquoted_char c = true ->
  wordy st ->
  wordy (fst (step plain_lexer st c))
  /\ Forall (fun t => nonempty t = true) (snd (step plain_lexer st c))
  /\ Forall (fun t => forallb not_ws t = true) (snd (step plain_lexer st c))
  /\ concat (snd (step plain_lexer st c)) ++ token (fst (step plain_lexer st c))
     = token st ++ filter not_ws [c].
Proof.
  destruct st as [q e t s].
  unfold wordy, unquoted_char, not_ws, lexer_whitespace.
  cbn [state token escapedstate quoted].
  intros Hc [Hr | (-> & -> & -> & Hne & Hws)].
  - injection Hr as -> -> -> ->. revert Hc.
    unfold step. cbn -[N.eqb]. case_eqb; intros Hc; try discriminate Hc;
      cbn; repeat split; auto; try (right; repeat split; cbn; auto).
    all: unfold lexer_whitespace; cbn -[N.eqb]; case_eqb; try congruence; auto.
  - revert Hc.
    unfold step. cbn -[N.eqb forallb nonempty].
    case_eqb; intros Hc; try discriminate Hc.
    all: destruct t as [|x t]; [discriminate Hne|].
    all: cbn -[N.eqb forallb]; rewrite ?app_nil_r.
    all: repeat split; auto.
    all: try (right; repeat split; auto).
    all: try (rewrite forallb_app, Hws).
    all: unfold not_ws, lexer_whitespace; cbn -[N.eqb forallb];
      case_eqb; try congruence; auto.
    all: change (x :: t ++ [c]) with ((x :: t) ++ [c]);
      rewrite forallb_app, Hws; cbn -[N.eqb];
      case_eqb; try congruence; auto.
Qed.

Lemma scan_unquoted (s : pystr) : forall st,
  forallb unquoted_char s = true ->
  wordy st ->
  wordy (fst (scan plain_lexer st s))
  /\ Forall (fun t => nonempty t = true) (snd (scan plain_lexer st s))
  /\ Forall (fun t => forallb not_ws t = true) (snd (scan plain_lexer st s))
  /\ concat (snd (scan plain_lexer st s)) ++ token (fst (scan plain_lexer st s))
     = token st ++ filter not_ws s.
Proof.
  induction s as [|c s IH]; intros st Hs Hst; cbn [scan fst snd].
  - cbn. rewrite app_nil_r. repeat split; auto.
  - cbn [forallb] in Hs. apply andb_true_iff in Hs as [Hc Hs].
    destruct (step_unquoted st c Hc Hst) as (H1 & H2 & H3 & H4).
    destruct (step plain_lexer st c) as [st1 ys1]; cbn [fst snd] in *.
    destruct (IH st1 Hs H1) as (I1 & I2 & I3 & I4).
    destruct (scan plain_lexer st1 s) as [st2 ys2]; cbn [fst snd] in *.
    repeat split; auto using Forall_app.
    + apply Forall_app; auto.
    + apply Forall_app; auto.
    + rewrite concat_app, <- app_assoc, I4, app_assoc, H4, <- app_assoc.
      f_equal. cbn [filter]. now destruct (not_ws c).
Qed.

Lemma finish_wordy (st : ScanState) :
  wordy st ->
  Forall (fun t => nonempty t = true) (finish plain_lexer st)
  /\ Forall (fun t => forallb not_ws t = true) (finish plain_lexer st)
  /\ concat (finish plain_lexer st) = token st.
Proof.
  destruct st as [q e t s].
  intros [Hr | (Hs & Hq & He & Hne & Hws)]; cbn in *.
  - injection Hr as -> -> -> ->. cbn. repeat split; constructor.
  - subst. destruct t as [|x t]; [discriminate|].
    cbn -[forallb]. rewrite app_nil_r. repeat split; auto.
Qed.

(** X11: for an input without quotes and backslashes, with
    [keep=False] and [placeholder=False], no token is empty, no token
    holds a space, a tab or a carriage return, and the tokens,
    concatenated, are the input without these three characters. *)
Theorem split_unquoted (s : pystr) :
  forallb unquoted_char s = true ->
  Forall (fun t => nonempty t = true) (split s false false)
  /\ Forall (fun t => forallb not_ws t = true) (split s false false)
  /\ concat (split s false false) = filter not_ws s.
Proof.
  intros Hs.
  destruct (scan_unquoted s reset Hs (or_introl eq_refl))
    as (H1 & H2 & H3 & H4).
  destruct (finish_wordy _ H1) as (F1 & F2 & F3).
  unfold split. rewrite reassemble_concat, iter_plain.
  split; [|split].
  - apply reassemble_nonempty, Forall_app; auto.
  - apply reassemble_chars, Forall_app; auto.
  - rewrite concat_app, F3. exact H4.
Qed.

Lemma split_unquoted_witness :
  Forall (fun t => nonempty t = true) (split (str " ab  c ") false false)
  /\ Forall (fun t => forallb not_ws t = true)
       (split (str " ab  c ") false false)
  /\ concat (split (str " ab  c ") false false) = str "abc".
Proof. apply (split_unquoted (str " ab  c ")). reflexivity. Defined.

(** ** Placeholder mode *)

(** The lexer with [placeholder=True]. *)
Definition placeholder_lexer : ShellLexer := split_lexer [] false true.

(** The characters a placeholder token is made of: the two braces of
    the marker, lexer whitespace and quotes. *)
Definition ph_char (c : char) : bool := in_str c (MARK ++ [SP; TAB; CR; SQ; DQ]).

Lemma step_placeholder_chars (st : ScanState) (c : char) :
  forallb ph_char (token st) = true ->
  forallb ph_char (token (fst (step placeholder_lexer st c))) = true
  /\ Forall (fun t => forallb ph_char t = true)
       (snd (step placeholder_lexer st c)).
Proof.
  destruct st as [q e t s]. cbn [token]. intros Ht.
  unfold step. cbn -[N.eqb forallb nonempty].
  case_eqb.
  all: unfold pending, add_token_if, add_token, set_token, set_state,
         set_quoted, set_escapedstate;
       cbn -[N.eqb forallb nonempty].
  all: repeat match goal with
         | |- context [if ?b then _ else _] => destruct b
         end.
  all: cbn -[N.eqb forallb]; rewrite ?forallb_app, ?Ht;
       repeat split; repeat constructor; rewrite ?forallb_app, ?Ht; auto.
Qed.

Lemma scan_placeholder_chars (s : pystr) : forall st,
  forallb ph_char (token st) = true ->
  forallb ph_char (token (fst (scan placeholder_lexer st s))) = true
  /\ Forall (fun t => forallb ph_char t = true)
       (snd (scan placeholder_lexer st s)).
Proof.
  induction s as [|c s IH]; intros st Ht; cbn [scan fst snd].
  - split; [assumption | constructor].
  - destruct (step_placeholder_chars st c Ht) as [H1 H2].
    destruct (step placeholder_lexer st c) as [st1 ys1]; cbn [fst snd] in *.
    destruct (IH st1 H1) as [I1 I2].
    destruct (scan placeholder_lexer st1 s) as [st2 ys2]; cbn [fst snd] in *.
    split; [assumption | now apply Forall_app].
Qed.

(** X12: with [placeholder=True], whatever [keep] is, no character of
    a word or of the inside of a quote reaches the result: every token
    is made of the two braces of the marker, spaces, tabs, carriage
    returns and quote characters only. *)
Theorem split_placeholder_alphabet (s : pystr) (k : bool) :
  Forall (fun t => forallb ph_char t = true) (split s k true).
Proof.
  unfold split. apply reassemble_chars.
  rewrite iter_unfold.
  change (split_lexer s k true) with (split_lexer s false true).
  rewrite (scan_string s [] false true), (finish_string s [] false true).
  fold placeholder_lexer.
  destruct (scan_placeholder_chars s reset eq_refl) as [H1 H2].
  apply Forall_app. split; [assumption|].
  unfold finish. change (keep placeholder_lexer) with true.
  cbn [negb]. rewrite andb_false_r. cbn [add_token_if].
  destruct (pending _); repeat constructor; exact H1.
Qed.

(** ** The flags of the lexer, seen in the result *)

(** The whitespace characters of [s] that the scan meets in the idle
    or in the word state, that is outside quotes and not right after an
    escape character, when it starts in [st]. *)
Fixpoint unquoted_whitespace (L : ShellLexer) (st : ScanState) (s : pystr)
  : pystr :=
  match s with
  | [] => []
  | c :: s' =>
      (if in_str c (whitespace L) && ((state st =? SP) || (state st =? A))
       then [c] else [])
      ++ unquoted_whitespace L (fst (step L st c)) s'
  end.

(** A character of a placeholder token that is not whitespace: a brace
    of the marker or a quote. *)
Definition solid (c : char) : bool := in_str c (MARK ++ [SQ; DQ]).

(** A token with its whitespace in front: a run of lexer whitespace,
    then at least one character, none of them whitespace. *)
Definition attached (t : pystr) : Prop :=
  exists spaces body,
    t = spaces ++ body
    /\ forallb lexer_whitespace spaces = true
    /\ nonempty body = true
    /\ forallb solid body = true.

(** The fragments of the lexer in placeholder mode: one whitespace
    character, or a non-empty text without whitespace. *)
Definition ph_fragment (y : pystr) : Prop :=
  (exists c, y = [c] /\ lexer_whitespace c = true)
  \/ (nonempty y = true /\ forallb solid y = true).

(** What holds of the scanner state throughout a scan in placeholder
    mode. *)
Definition ph_settled (st : ScanState) : Prop :=
  forallb solid (token st) = true
  /\ (quoted st = true -> nonempty (token st) = true)
  /\ ((state st = SP /\ token st = [])
      \/ state st = A
      \/ ((state st = SQ \/ state st = DQ) /\ nonempty (token st) = true)
      \/ (state st = BS
          /\ (escapedstate st = A
              \/ ((escapedstate st = SQ \/ escapedstate st = DQ)
                  /\ nonempty (token st) = true)))).

Lemma solid_no_whitespace (t : pystr) :
  forallb solid t = true -> filter lexer_whitespace t = [].
Proof.
  induction t as [|x t IH]; cbn [forallb filter]; auto.
  intros H. apply andb_true_iff in H as [Hx Ht].
  rewrite (IH Ht).
  revert Hx. unfold solid, lexer_whitespace. cbn -[N.eqb].
  case_eqb; intros Hx; try discriminate; reflexivity.
Qed.

Lemma solid_not_isspace (spaces t : pystr) :
  nonempty t = true -> forallb solid t = true ->
  isspace (spaces ++ t) = false.
Proof.
  destruct t as [|x t]; [discriminate|]. intros _ H.
  cbn [forallb] in H. apply andb_true_iff in H as [Hx _].
  unfold isspace. rewrite forallb_app. cbn [forallb].
  assert (Hs : isspace_char x = false).
  { revert Hx. unfold solid. cbn -[N.eqb isspace_char].
    case_eqb; intros Hx; try discriminate; reflexivity. }
  rewrite Hs. cbn. now rewrite !andb_false_r.
Qed.

Ltac ph_fragments :=
  cbn [app];
  repeat first [apply Forall_nil | apply Forall_cons];
  first [ left; eexists; split; reflexivity
        | right; split; [first [reflexivity | assumption] | assumption] ].

Ltac ph_close Hsol Hws :=
  cbn -[N.eqb solid lexer_whitespace forallb filter nonempty app];
  rewrite ?app_nil_r;
  repeat match goal with
    | |- _ /\ _ => split
    | |- _ -> _ => intro
    end;
  try discriminate; try assumption; try reflexivity;
  try ph_fragments;
  try (rewrite ?forallb_app, ?Hsol; reflexivity);
  try (cbn [app concat]; rewrite ?app_nil_r, ?filter_app, ?Hws; reflexivity);
  try (match goal with |- nonempty (?t ++ _) = true => now destruct t end);
  try tauto;
  try (right; right; left; split;
       [tauto | match goal with
                | |- nonempty (?t ++ _) = true => now destruct t
                end]).

Lemma step_placeholder (st : ScanState) (c : char) :
  ph_settled st ->
  ph_settled (fst (step placeholder_lexer st c))
  /\ Forall ph_fragment (snd (step placeholder_lexer st c))
  /\ filter lexer_whitespace (concat (snd (step placeholder_lexer st c)))
     = (if in_str c (whitespace placeholder_lexer)
           && ((state st =? SP) || (state st =? A))
        then [c] else []).
Proof.
  destruct st as [q e t s].
  unfold ph_settled; cbn [state token escapedstate quoted].
  intros (Hsol & Hq & Hst).
  assert (Hws : filter lexer_whitespace t = [])
    by now apply solid_no_whitespace.
  destruct Hst as [[-> ->] | [-> | [[[-> | ->] Hne] | [-> Hesc]]]].
  - unfold step. cbn -[N.eqb]. case_eqb; ph_close Hsol Hws.
  - unfold step, pending.
    cbn -[N.eqb solid lexer_whitespace forallb filter nonempty app].
    case_eqb; destruct (nonempty t) eqn:Hn, q;
      try (specialize (Hq eq_refl); discriminate Hq);
      try (destruct t; [|discriminate Hn]);
      ph_close Hsol Hws.
  - unfold step. cbn -[N.eqb solid lexer_whitespace forallb filter nonempty].
    case_eqb; ph_close Hsol Hws.
  - unfold step. cbn -[N.eqb solid lexer_whitespace forallb filter nonempty].
    case_eqb; ph_close Hsol Hws.
  - destruct Hesc as [-> | [[-> | ->] Hne]];
      unfold step; cbn -[N.eqb solid lexer_whitespace forallb filter nonempty];
      case_eqb; ph_close Hsol Hws.
Qed.

Lemma scan_placeholder (s : pystr) : forall st,
  ph_settled st ->
  ph_settled (fst (scan placeholder_lexer st s))
  /\ Forall ph_fragment (snd (scan placeholder_lexer st s))
  /\ filter lexer_whitespace (concat (snd (scan placeholder_lexer st s)))
     = unquoted_whitespace placeholder_lexer st s.
Proof.
  induction s as [|c s IH]; intros st Hst;
    cbn [scan unquoted_whitespace fst snd].
  - split; [assumption|]. split; [constructor | reflexivity].
  - destruct (step_placeholder st c Hst) as (H1 & H2 & H3).
    destruct (step placeholder_lexer st c) as [st1 ys1]; cbn [fst snd] in *.
    destruct (IH st1 H1) as (I1 & I2 & I3).
    destruct (scan placeholder_lexer st1 s) as [st2 ys2]; cbn [fst snd] in *.
    split; [assumption|]. split; [now apply Forall_app|].
    now rewrite concat_app, filter_app, H3, I3.
Qed.

Lemma ph_settled_reset : ph_settled reset.
Proof.
  split; [reflexivity|]. split; [discriminate|]. left. split; reflexivity.
Qed.

Lemma finish_placeholder (st : ScanState) :
  ph_settled st ->
  Forall ph_fragment (finish placeholder_lexer st)
  /\ filter lexer_whitespace (concat (finish placeholder_lexer st)) = [].
Proof.
  intros (Hsol & Hq & _). unfold finish.
  change (keep placeholder_lexer) with true.
  cbn [negb]. rewrite andb_false_r. cbn [add_token_if].
  unfold pending. destruct (nonempty (token st)) eqn:Hn.
  - cbn. rewrite app_nil_r. split.
    + constructor; [right; now split | constructor].
    + now apply solid_no_whitespace.
  - destruct (quoted st); [specialize (Hq eq_refl); discriminate|].
    cbn. split; [constructor | reflexivity].
Qed.

Lemma walk_attached (ts : list pystr) : forall out spaces,
  Forall ph_fragment ts ->
  Forall attached out ->
  forallb lexer_whitespace spaces = true ->
  Forall attached (fst (walk ts out spaces))
  /\ forallb lexer_whitespace (snd (walk ts out spaces)) = true.
Proof.
  induction ts as [|t ts IH]; intros out spaces Hts Hout Hsp; cbn [walk].
  - now split.
  - inversion Hts as [|? ? Ht Hts']; subst.
    destruct Ht as [(c & -> & Hc) | [Hne Hsol]].
    + rewrite (lexer_whitespace_isspace c Hc).
      apply IH; auto. rewrite forallb_app, Hsp. cbn [forallb andb].
      now rewrite Hc.
    + pose proof (solid_not_isspace [] t Hne Hsol) as Hns.
      cbn [app] in Hns. rewrite Hns.
      apply IH; auto.
      apply Forall_app. split; auto.
      constructor; [|constructor]. now exists spaces, t.
Qed.

Lemma iter_placeholder (s : pystr) (k : bool) :
  iter (split_lexer s k true)
  = snd (scan placeholder_lexer reset s)
    ++ finish placeholder_lexer (fst (scan placeholder_lexer reset s)).
Proof.
  rewrite iter_unfold.
  change (split_lexer s k true) with (split_lexer s false true).
  now rewrite (scan_string s [] false true), (finish_string s [] false true).
Qed.

Lemma unquoted_whitespace_string (s s' : pystr) (k p : bool) (w : pystr) :
  forall st,
    unquoted_whitespace (split_lexer s k p) st w
    = unquoted_whitespace (split_lexer s' k p) st w.
Proof.
  induction w as [|c w IH]; intros st; cbn [unquoted_whitespace]; auto.
  rewrite (step_string s s'), IH. now destruct p.
Qed.

(** C4: with [placeholder=True] the lexer of [split] keeps, whatever
    the caller's [keep] is.  The result does not depend on [keep]; its
    whitespace characters are, in order, the whitespace characters of
    the input met outside quotes and escapes; and each of them is in
    front of the token that follows it: the result is a list of tokens
    that each start with their whitespace, followed by the whitespace
    after the last token, if any, as a token of its own.  With
    [placeholder=False] the lexer's [keep] is the caller's, which is
    what [split] runs with. *)
Theorem split_placeholder_forces_keep (s : pystr) (k : bool) :
  keep (split_lexer s k true) = true
  /\ placeholder (split_lexer s k true) = true
  /\ split s k true = split s true true
  /\ filter lexer_whitespace (concat (split s k true))
     = unquoted_whitespace (split_lexer s k true) reset s
  /\ (exists out trailing,
        split s k true = out ++ (if nonempty trailing then [trailing] else [])
        /\ Forall attached out
        /\ forallb lexer_whitespace trailing = true)
  /\ (forall st c, state st = A ->
        in_str c (whitespace (split_lexer s k true)) = true ->
        exists ys, snd (step (split_lexer s k true) st c) = ys ++ [[c]])
  /\ keep (split_lexer s k false) = k
  /\ placeholder (split_lexer s k false) = false
  /\ split s k false = reassemble (iter (set_keep k (ShellLexer_init s)))
  /\ split (str "a  b ") k true = [MARK; str "  " ++ MARK; str " "]
  /\ split (str "a  b ") true false = [str "a"; str "  b"; str " "]
  /\ split (str "a  b ") false false = [str "a"; str "b"].
Proof.
  destruct (scan_placeholder s reset ph_settled_reset) as (H1 & H2 & H3).
  destruct (finish_placeholder _ H1) as (F1 & F2).
  assert (Hfr : Forall ph_fragment (iter (split_lexer s k true))).
  { rewrite iter_placeholder. now apply Forall_app. }
  repeat match goal with |- _ /\ _ => split end;
    try reflexivity; try (now destruct k).
  - unfold split. rewrite reassemble_concat, iter_placeholder.
    rewrite concat_app, filter_app, H3, F2, app_nil_r.
    change (split_lexer s k true) with (split_lexer s false true).
    apply (unquoted_whitespace_string [] s false true).
  - unfold split, reassemble.
    destruct (iter (split_lexer s k true)) as [|t ts] eqn:E.
    + exists [], []. repeat split; auto.
    + cbv beta iota delta [negb].
      destruct (walk_attached (t :: ts) (@nil pystr) (@nil char)
                  Hfr (Forall_nil _) eq_refl) as [Hout Hsp].
      destruct (walk (t :: ts) [] []) as [out spaces]; cbn [fst snd] in *.
      exists out, spaces. repeat split; auto.
      destruct (nonempty spaces); [reflexivity | now rewrite app_nil_r].
  - intros st c Hs Hc.
    apply step_word_whitespace; auto using split_lexer_standard.
Qed.

Lemma split_placeholder_forces_keep_witness :
  exists ys,
    snd (step (split_lexer (str "a b") false true)
           (mkScan false SP MARK A) SP) = ys ++ [[SP]].
Proof.
  apply (proj1 (proj2 (proj2 (proj2 (proj2 (proj2
           (split_placeholder_forces_keep (str "a b") false))))))).
  - reflexivity.
  - reflexivity.
Defined.

(** ** End of input, in full *)

Lemma settled_idle (st : ScanState) :
  settled st -> state st = SP -> st = reset.
Proof.
  destruct st as [q e t s]. unfold settled. cbn.
  intros [(_ & -> & -> & ->) | [[-> _] | [-> | [-> | [-> _]]]]] Hs;
    try discriminate Hs.
  now subst.
Qed.

Lemma final_state_plain (s : pystr) :
  final_state (split_lexer s false false) = fst (scan plain_lexer reset s).
Proof.
  unfold final_state. rewrite string_split_lexer.
  now rewrite (scan_string s [] false false).
Qed.

(** With [keep=False] and [placeholder=False], a quote character met
    in the idle state at the very end of the input adds no fragment. *)
Lemma iter_final_quote (s : pystr) (q : char) :
  in_str q [SQ; DQ] = true ->
  state (final_state (split_lexer s false false)) = SP ->
  iter (split_lexer (s ++ [q]) false false) = iter (split_lexer s false false).
Proof.
  intros Hq Hs. rewrite final_state_plain in Hs.
  rewrite !iter_plain, scan_app. cbn [scan fst snd].
  rewrite (settled_idle _ (final_settled s) Hs).
  rewrite (step_idle_quote plain_lexer plain_standard eq_refl eq_refl q Hq).
  cbn [fst snd]. rewrite finish_reset, !app_nil_r.
  assert (Hf : finish plain_lexer (mkScan false SP [] q) = []).
  { revert Hq. cbn -[N.eqb]. case_eqb; intros Hq; try discriminate;
      reflexivity. }
  now rewrite Hf, app_nil_r.
Qed.

(** C5 (amended): [split] returns a list for every input and all
    flags.  For all flags, when the input ends inside a quote and the
    accumulator is not empty or a character of the token was scanned
    inside a quote, the last token returned ends with the accumulator;
    so [split("'abc")] is [["abc"]].  With [keep=False] and
    [placeholder=False], when the input ends right after an escape
    character, the last token returned ends with the accumulator
    followed by a backslash; and when the scan is idle before a quote
    character that ends the input (the quote is the first character or
    follows unquoted whitespace), that quote adds no token, so
    [split("'")] is the empty list and [split("a '")] is [["a"]]. *)
Theorem split_total_soft_ends :
  (forall s k p, exists out, split s k p = out)
  /\ (forall s k p,
        in_str (state (final_state (split_lexer s k p)))
          (quotes (split_lexer s k p)) = true ->
        pending (final_state (split_lexer s k p)) = true ->
        exists out spaces,
          forallb isspace_char spaces = true
          /\ split s k p
             = out ++ [spaces ++ token (final_state (split_lexer s k p))])
  /\ split (str "'abc") false false = [str "abc"]
  /\ (forall s,
        in_str (state (final_state (split_lexer s false false)))
          (escape (split_lexer s false false)) = true ->
        exists out spaces,
          forallb isspace_char spaces = true
          /\ split s false false
             = out ++ [spaces
                       ++ token (final_state (split_lexer s false false))
                       ++ [BS]])
  /\ split (str "abc" ++ [BS]) false false = [str "abc" ++ [BS]]
  /\ (forall s q,
        in_str q [SQ; DQ] = true ->
        state (final_state (split_lexer s false false)) = SP ->
        split (s ++ [q]) false false = split s false false)
  /\ split (str "'") false false = []
  /\ split (str "a '") false false = [str "a"].
Proof.
  split; [intros s k p; eexists; reflexivity|].
  split; [|split; [reflexivity|split; [|split; [reflexivity|]]]].
  - intros s k p Hq Hp.
    exists (fst (walk (yielded (split_lexer s k p)) [] [])),
           (snd (walk (yielded (split_lexer s k p)) [] [])).
    split; [now apply walk_spaces|].
    rewrite split_unfold, <- reassemble_snoc. f_equal. f_equal.
    unfold finish.
    destruct (split_lexer_standard s k p) as (_ & Hqs & Hes & _).
    rewrite Hqs in Hq. rewrite Hes.
    destruct (final_state (split_lexer s k p)) as [q e t c].
    cbn [state] in *. cbn -[N.eqb] in Hq |- *.
    revert Hq Hp. case_eqb; intros Hq Hp; try discriminate;
      cbn [add_token_if]; now rewrite Hp.
  - intros s He.
    exists (fst (walk (yielded (split_lexer s false false)) [] [])),
           (snd (walk (yielded (split_lexer s false false)) [] [])).
    split; [now apply walk_spaces|].
    rewrite split_unfold, <- reassemble_snoc. f_equal. f_equal.
    unfold finish. rewrite He.
    destruct (final_state (split_lexer s false false)) as [q e t c].
    cbn -[N.eqb] in He |- *.
    revert He. case_eqb; intros He; try discriminate.
    unfold pending; cbn. now destruct t.
  - split; [|split; reflexivity].
    intros s q Hq Hs. unfold split. f_equal. now apply iter_final_quote.
Qed.


Lemma split_total_soft_ends_witness :
  split (str "a " ++ [DQ]) false false = split (str "a ") false false
  /\ (exists out spaces,
     forallb isspace_char spaces = true
     /\ split (str "x 'ab") false false = out ++ [spaces ++ str "ab"])
  /\ (exists out spaces,
        forallb isspace_char spaces = true
        /\ split (str "x ab" ++ [BS]) false false
           = out ++ [spaces ++ str "ab" ++ [BS]]).
Proof.
  split; [|split].
  - apply (proj1 (proj2 (proj2 (proj2 (proj2 (proj2 split_total_soft_ends)))))
             (str "a ") DQ); reflexivity.
  - apply (proj1 (proj2 split_total_soft_ends) (str "x 'ab") false false);
      reflexivity.
  - apply (proj1 (proj2 (proj2 (proj2 split_total_soft_ends)))
             (str "x ab" ++ [BS]));
      reflexivity.
Defined.


(** * Properties of the layers of a setting value *)

Lemma str_eqb_eq (a b : pystr) : str_eqb a b = true <-> a = b.
Proof.
  revert b. induction a as [|x a IH]; intros [|y b]; cbn; split;
    try discriminate; try reflexivity.
  - intros H. apply andb_true_iff in H as [Hx Ha].
    apply N.eqb_eq in Hx. apply IH in Ha. now subst.
  - intros H. injection H as -> ->.
    rewrite N.eqb_refl. now apply IH.
Qed.

Lemma str_eqb_neq (a b : pystr) : a <> b -> str_eqb a b = false.
Proof.
  intros H. destruct (str_eqb a b) eqn:E; auto.
  now apply str_eqb_eq in E.
Qed.

(** The three layers, the most significant first. *)
Definition layers : list pystr := [str "temp"; str "conf"; str "default"].

Section SettingValueFacts.
Context {V I T : Type}.
Implicit Types (self : SettingValue V I T) (x : option V) (i : I).

(** The layers of the object are the three of [__init__], in order. *)
Definition layered self : Prop := map fst (_values self) = layers.

Lemma layered_inv self :
  layered self ->
  exists a b c,
    _values self = [(str "temp", a); (str "conf", b); (str "default", c)].
Proof.
  unfold layered, layers. destruct (_values self) as [|[k1 a] d]; [discriminate|].
  destruct d as [|[k2 b] d]; [discriminate|].
  destruct d as [|[k3 c] d]; [discriminate|].
  destruct d; [|discriminate].
  cbn. intros H. injection H as -> -> ->. now exists a, b, c.
Qed.

Ltac layered_cases self H :=
  let a := fresh "a" in let b := fresh "b" in let c := fresh "c" in
  let E := fresh "E" in
  destruct (layered_inv self H) as (a & b & c & E).

(** X13: an object made by [__init__] has the three layers; [setv] on
    one of them with a value that [validate] accepts keeps the three
    layers, and reading from that layer on gives the value stored. *)
Theorem setv_then_get_first_value self (layer : pystr) (v : V) i :
  layered self ->
  In layer layers ->
  validate (typ self) i = true ->
  exists self',
    setv self layer (Some v) i = Ok self'
    /\ layered self'
    /\ get_first_value self' (Some layer) = Ok v.
Proof.
  intros Hl Hin Hv. layered_cases self Hl.
  unfold setv. rewrite Hv. eexists. split; [reflexivity|].
  unfold layered, get_first_value, getlayers. cbn [_values]. rewrite E.
  destruct Hin as [<- | [<- | [<- | []]]]; split; reflexivity.
Qed.

(** X14: a value stored on a layer is hidden by a value that is not
    [None] on a more significant layer: [setv] on a layer other than
    [temp] leaves [value] at what [temp] holds, and [setv] on a layer
    other than [temp] and [conf] leaves it at what [conf] holds when
    [temp] holds [None].  A layer name that is not one of the three
    counts as a less significant layer. *)
Theorem setv_less_significant_layer self self' (layer : pystr) x i :
  layered self ->
  setv self layer x i = Ok self' ->
  (forall t, layer <> str "temp" ->
             od_get (_values self) (str "temp") = Ok (Some t) ->
             value self' = Ok t)
  /\ (forall c, layer <> str "temp" -> layer <> str "conf" ->
                od_get (_values self) (str "temp") = Ok None ->
                od_get (_values self) (str "conf") = Ok (Some c) ->
                value self' = Ok c).
Proof.
  intros Hl Hs. layered_cases self Hl.
  unfold setv in Hs. destruct (validate (typ self) i); [|discriminate].
  injection Hs as <-. unfold value, get_first_value. cbn [_values].
  rewrite E. split.
  - intros t Hne Ht. cbn in Ht. injection Ht as ->.
    cbn [od_set]. rewrite (str_eqb_neq _ _ (not_eq_sym Hne)). reflexivity.
  - intros c' Hne1 Hne2 Ht Hc. cbn in Ht, Hc.
    injection Ht as ->. injection Hc as ->.
    cbn [od_set].
    rewrite (str_eqb_neq _ _ (not_eq_sym Hne1)),
            (str_eqb_neq _ _ (not_eq_sym Hne2)).
    reflexivity.
Qed.

(** X15: storing [None] on [temp] removes the temporary value: [value]
    is then what [get_first_value] gave from [conf] on. *)
Theorem setv_none_falls_back self self' i :
  layered self ->
  setv self (str "temp") None i = Ok self' ->
  value self' = get_first_value self (Some (str "conf")).
Proof.
  intros Hl Hs. layered_cases self Hl.
  unfold setv in Hs. destruct (validate (typ self) i); [|discriminate].
  injection Hs as <-.
  unfold value, get_first_value, getlayers. cbn [_values]. rewrite E.
  reflexivity.
Qed.

(** X16: [value] raises exactly when the three layers hold [None], and
    then it raises [ValueError]; otherwise it returns the value of the
    most significant layer that does not hold [None]. *)
Theorem value_raises_iff_unset self :
  layered self ->
  (value self = Raise ValueError
   <-> _values self = od_fromkeys layers)
  /\ (forall e, value self = Raise e -> e = ValueError)
  /\ (forall v, value self = Ok v ->
        exists layer, In layer layers
                      /\ od_get (_values self) layer = Ok (Some v)).
Proof.
  intros Hl. layered_cases self Hl.
  unfold value, get_first_value. rewrite E. cbn.
  destruct a as [a|], b as [b|], c as [c|]; cbn;
    (split; [split; [discriminate || reflexivity
                    | discriminate || reflexivity]|]);
    (split; [intros e He; now (discriminate He || injection He as <-)|]);
    intros v Hv; try discriminate Hv; injection Hv as <-.
  all: first [ exists (str "temp"); split; [cbn; tauto | reflexivity]
             | exists (str "conf"); split; [cbn; tauto | reflexivity]
             | exists (str "default"); split; [cbn; tauto | reflexivity] ].
Qed.

(** X17: a layer name that is not one of the three makes [getlayers],
    and [get_first_value] from that layer, raise [ValueError]. *)
Theorem getlayers_unknown_layer self (layer : pystr) :
  layered self ->
  ~ In layer layers ->
  getlayers self layer = Raise ValueError
  /\ get_first_value self (Some layer) = Raise ValueError.
Proof.
  intros Hl Hin. unfold get_first_value, getlayers. rewrite Hl.
  unfold layers. cbn [list_index].
  rewrite !str_eqb_neq; [split; reflexivity | | |];
    intros H; apply Hin; rewrite <- H; cbn; tauto.
Qed.

(** X18: [setv] does not check the layer name: an unknown name is
    added after the three layers, and its value is used only when the
    three hold [None]. *)
Theorem setv_unknown_layer self (layer : pystr) x i :
  layered self ->
  ~ In layer layers ->
  validate (typ self) i = true ->
  exists self',
    setv self layer x i = Ok self'
    /\ map fst (_values self') = layers ++ [layer]
    /\ value self'
       = match value self with
         | Ok v => Ok v
         | Raise _ => match x with
                      | Some v => Ok v
                      | None => Raise ValueError
                      end
         end.
Proof.
  intros Hl Hin Hv. layered_cases self Hl.
  unfold setv. rewrite Hv. eexists. split; [reflexivity|].
  unfold value, get_first_value. cbn [_values]. rewrite E.
  cbn [od_set].
  rewrite !str_eqb_neq by
    (intros H; apply Hin; rewrite <- H; cbn; tauto).
  split; [reflexivity|].
  destruct a, b, c, x; reflexivity.
Qed.

(** X19: a new object holds [None] on [temp] and on [conf] and the
    value given to [__init__] on [default]; that value is the value of
    the new object, which has none when it is [None]; and [default]
    is what [__init__] was given as long as [setv] is used on other
    layers. *)
Theorem default_kept (ty : BaseType V I T) (d : option V) (adv : bool) :
  _values (SettingValue_init ty d adv)
  = [(str "temp", None); (str "conf", None); (str "default", d)]
  /\ layered (SettingValue_init ty d adv)
  /\ value (SettingValue_init ty d adv)
     = match d with Some v => Ok v | None => Raise ValueError end
  /\ default (SettingValue_init ty d adv) = Ok d
  /\ (forall self self' layer x i,
        layered self -> layer <> str "default" ->
        setv self layer x i = Ok self' ->
        default self' = default self).
Proof.
  split; [reflexivity|].
  split; [reflexivity|]. split; [now destruct d|]. split; [reflexivity|].
  intros self self' layer x i Hl Hne Hs. layered_cases self Hl.
  unfold setv in Hs. destruct (validate (typ self) i); [|discriminate].
  injection Hs as <-. unfold default. cbn [_values]. rewrite E.
  cbn [od_set].
  destruct (str_eqb (str "temp") layer); [reflexivity|].
  destruct (str_eqb (str "conf") layer); [reflexivity|].
  rewrite (str_eqb_neq _ _ (not_eq_sym Hne)). reflexivity.
Qed.
End SettingValueFacts.

(** A settings object to try the layers on: strings as values, a type
    that accepts everything and transforms nothing. *)
Definition any_type : BaseType pystr unit pystr :=
  {| validate := fun _ => true; transform := fun v => v |}.

Definition editor_setting : SettingValue pystr unit pystr :=
  SettingValue_init any_type (Some (str "vim")) false.

Definition editor_setting_temp : SettingValue pystr unit pystr :=
  {| typ := any_type; advanced := false;
     _values := [(str "temp", Some (str "nano")); (str "conf", None);
                 (str "default", Some (str "vim"))] |}.

Lemma setv_then_get_first_value_witness :
  exists self',
    setv editor_setting (str "conf") (Some (str "emacs")) tt = Ok self'
    /\ layered self'
    /\ get_first_value self' (Some (str "conf")) = Ok (str "emacs").
Proof.
  apply setv_then_get_first_value;
    [reflexivity | right; left; reflexivity | reflexivity].
Defined.

Lemma setv_less_significant_layer_witness :
  value {| typ := any_type; advanced := false;
           _values := [(str "temp", Some (str "nano"));
                       (str "conf", Some (str "emacs"));
                       (str "default", Some (str "vim"))] |}
  = Ok (str "nano").
Proof.
  apply (proj1 (setv_less_significant_layer editor_setting_temp _
                  (str "conf") (Some (str "emacs")) tt eq_refl eq_refl)
           (str "nano")); [discriminate | reflexivity].
Defined.

Lemma setv_none_falls_back_witness :
  value {| typ := any_type; advanced := false;
           _values := [(str "temp", None); (str "conf", None);
                       (str "default", Some (str "vim"))] |}
  = get_first_value editor_setting_temp (Some (str "conf")).
Proof.
  apply (setv_none_falls_back editor_setting_temp _ tt); reflexivity.
Defined.

Lemma value_raises_iff_unset_witness :
  value (SettingValue_init any_type None false) = Raise ValueError.
Proof.
  apply (proj1 (value_raises_iff_unset
                  (SettingValue_init any_type None false) eq_refl)).
  reflexivity.
Defined.

Lemma getlayers_unknown_layer_witness :
  getlayers editor_setting (str "user") = Raise ValueError
  /\ get_first_value editor_setting (Some (str "user")) = Raise ValueError.
Proof.
  apply getlayers_unknown_layer; [reflexivity|].
  intros [H | [H | [H | []]]]; discriminate H.
Defined.

Lemma setv_unknown_layer_witness :
  exists self',
    setv editor_setting (str "user") (Some (str "ed")) tt = Ok self'
    /\ map fst (_values self') = layers ++ [str "user"]
    /\ value self' = Ok (str "vim").
Proof.
  apply (setv_unknown_layer editor_setting (str "user") (Some (str "ed")) tt);
    [reflexivity | | reflexivity].
  intros [H | [H | [H | []]]]; discriminate H.
Defined.
